(** * QuadKey: digit strings, tile coordinates and bounds

    A shallow embedding of [quadkey.go] (package [quadkey]).

    - Go's [int] is taken as the 64-bit two's-complement integer of the
      mainstream targets: values are [Z] and every operation that can leave
      the range is wrapped explicitly ([Int64.wrap]).
    - Go's [string] is a byte string: [String.string], whose characters are
      the 8-bit [ascii].
    - Go's [float64] is the binary64 of Rocq's primitive floats, whose
      operations are specified by the IEEE 754 model of [SpecFloat].  The
      transcendental functions of package [math] ([Log], [Tan], [Cos],
      [Atan], [Sinh]) are parameters of a section: the results hold for
      whatever they compute.
      Where Go leaves a choice to the implementation the model follows
      the amd64 port: [int(f)] of a value that does not fit, and no fused
      multiply-add.
    - A run-time panic is the [None] of [option]. *)

From Stdlib Require Import ZArith Lia Bool List String Ascii.
From Stdlib Require Import PrimFloat FloatOps SpecFloat FloatAxioms.
Import ListNotations.

Local Open Scope Z_scope.

(* ================================================================= *)
(** ** Machine integers *)

Module Int64.

Definition min_int : Z := - 2 ^ 63.
Definition max_int : Z := 2 ^ 63 - 1.

Definition in_range (v : Z) : Prop := min_int <= v <= max_int.

(** Reduction of a mathematical result into the 64-bit signed range. *)
Definition wrap (v : Z) : Z := (v + 2 ^ 63) mod 2 ^ 64 - 2 ^ 63.

Definition add (a b : Z) : Z := wrap (a + b).
Definition sub (a b : Z) : Z := wrap (a - b).
Definition mul (a b : Z) : Z := wrap (a * b).

(** [a << s] for a non-negative count [s]: bits shifted past position 63
    are lost, and a count of 64 or more leaves 0.  (A negative count is a
    run-time panic in Go; no loop of the package produces one.) *)
Definition shl (a s : Z) : Z :=
  if 64 <=? s then 0 else wrap (Z.shiftl a s).

End Int64.

(* ================================================================= *)
(** ** Errors and panics *)

(** The three [error] values the package builds. *)
Inductive error : Type :=
| ErrEmpty                          (* errors.New("key is empty") *)
| ErrDigit (i : Z) (c : ascii)      (* fmt.Errorf("key contains invalid digit at index %d: %q", i, key[i]) *)
| ErrRoot.                          (* errors.New("key is root") *)

(** Sequencing of computations that may panic. *)
Notation "x <- a ;; b" :=
  (match a with Some x => b | None => None end)
  (right associativity, at level 60, a at next level).

(* ================================================================= *)
(** ** type QuadKey string *)

Definition QuadKey : Type := string.

(** [case '0', '1', '2', '3':] *)
Definition is_quad (c : ascii) : bool :=
  ((c =? "0") || (c =? "1") || (c =? "2") || (c =? "3"))%char.

(** The loop of [Valid]: [rest] is [key[i:]]. *)
Fixpoint Valid_loop (rest : string) (i : Z) : option error :=
  match rest with
  | EmptyString => None
  | String c rest' =>
      if is_quad c then Valid_loop rest' (i + 1) else Some (ErrDigit i c)
  end.

(** [func (key QuadKey) Valid() error]; [None] is [nil]. *)
Definition Valid (key : QuadKey) : option error :=
  if (key =? "")%string then Some ErrEmpty else Valid_loop key 0.

(** [func (key QuadKey) Z() int] *)
Definition Z_ (key : QuadKey) : Z := Z.of_nat (String.length key).

(** The loop of [XYZ]: [rest] is [key[z-i:]], so its first byte is
    [key[z-i]]; [None] is the [default:] branch. *)
Fixpoint XYZ_loop (rest : string) (i x y : Z) : option (Z * Z) :=
  match rest with
  | EmptyString => Some (x, y)
  | String c rest' =>
      let mask := Int64.shl 1 (i - 1) in
      if (c =? "0")%char then XYZ_loop rest' (i - 1) x y
      else if (c =? "1")%char then XYZ_loop rest' (i - 1) (Z.lor x mask) y
      else if (c =? "2")%char then XYZ_loop rest' (i - 1) x (Z.lor y mask)
      else if (c =? "3")%char then XYZ_loop rest' (i - 1) (Z.lor x mask) (Z.lor y mask)
      else None
  end.

(** [func (key QuadKey) XYZ() (x, y, z int)] *)
Definition XYZ (key : QuadKey) : Z * Z * Z :=
  match Valid key with
  | Some _ => (-1, -1, -1)
  | None =>
      let z := Z_ key in
      match XYZ_loop key z 0 0 with
      | Some (x, y) => (x, y, z)
      | None => (-1, -1, -1)
      end
  end.

(** [func (key QuadKey) Parent() (QuadKey, error)] *)
Definition Parent (key : QuadKey) : QuadKey * option error :=
  match Valid key with
  | Some err => (EmptyString, Some err)
  | None =>
      let z := Z_ key in
      if z =? 1 then (EmptyString, Some ErrRoot)
      else (substring 0 (Z.to_nat (z - 1)) key, None)
  end.

(** [digit++] and [digit += 2] on a [byte]. *)
Definition byte_add (c : ascii) (n : N) : ascii :=
  ascii_of_N ((N_of_ascii c + n) mod 256).

(** The body of the loop of [FromXYZ] for one [mask]. *)
Definition digit_of (x y mask : Z) : ascii :=
  let digit := "0"%char in
  let digit := if negb (Z.land x mask =? 0) then byte_add digit 1 else digit in
  let digit := if negb (Z.land y mask =? 0) then byte_add digit 2 else digit in
  digit.

(** The loop of [FromXYZ]: index [z-i] runs over 0, 1, ..., z-1 while [i]
    runs from [z] down to 1, so the buffer is filled from left to right. *)
Fixpoint FromXYZ_loop (x y : Z) (i : nat) : string :=
  match i with
  | O => EmptyString
  | S i' =>
      let mask := Int64.shl 1 (Z.of_nat i - 1) in
      String (digit_of x y mask) (FromXYZ_loop x y i')
  end.

(** [func FromXYZ(x, y, z int) QuadKey]; [make([]byte, z)] panics when [z]
    is negative. *)
Definition FromXYZ (x y z : Z) : option QuadKey :=
  if z <? 0 then None else Some (FromXYZ_loop x y (Z.to_nat z)).

(** [func (key QuadKey) Children() []QuadKey] *)
Definition Children (key : QuadKey) : option (list QuadKey) :=
  match Valid key with
  | Some _ => Some []
  | None =>
      let '(x, y, z) := XYZ key in
      if (x <? 0) || (y <? 0) || (z <? 0) then Some []
      else
        let cx := Int64.shl x 1 in
        let cy := Int64.shl y 1 in
        let zz := Int64.add z 1 in
        k0 <- FromXYZ cx cy zz ;;
        k1 <- FromXYZ (Int64.add cx 1) cy zz ;;
        k2 <- FromXYZ cx (Int64.add cy 1) zz ;;
        k3 <- FromXYZ (Int64.add cx 1) (Int64.add cy 1) zz ;;
        Some [k0; k1; k2; k3]
  end.

(* ================================================================= *)
(** ** Package math on binary64 *)

Module GoMath.

(** [float64(v)] for an [int] [v]: the nearest binary64, ties to even. *)
Definition of_int (v : Z) : float :=
  SF2Prim (binary_normalize prec emax v 0 false).

(** [int(f)]: truncation toward zero.  Go leaves the result open when the
    value does not fit (or is a NaN); the model takes what amd64's
    conversion instruction yields there, the smallest [int]. *)
Definition to_int (f : float) : Z :=
  match Prim2SF f with
  | S754_zero _ => 0
  | S754_finite s m e =>
      let a := if 0 <=? e then Z.pos m * 2 ^ e else Z.pos m / 2 ^ (- e) in
      let v := if s then - a else a in
      if (Int64.min_int <=? v) && (v <=? Int64.max_int) then v
      else Int64.min_int
  | _ => Int64.min_int
  end.

(** [math.Floor]: the greatest integral value not above [f]; zeros,
    infinities and NaN are returned as they are. *)
Definition Floor (f : float) : float :=
  match Prim2SF f with
  | S754_finite s m e =>
      if e <? 0
      then of_int ((if s then Z.neg m else Z.pos m) / 2 ^ (- e))
      else f
  | _ => f
  end.

(** [math.Max], with its special cases:
    Max(x, +Inf) = Max(+Inf, x) = +Inf, Max(x, NaN) = Max(NaN, x) = NaN,
    Max(+0, ±0) = Max(±0, +0) = +0. *)
Definition Max (x y : float) : float :=
  if (x =? infinity)%float || (y =? infinity)%float then infinity
  else if is_nan x || is_nan y then nan
  else if (x =? 0)%float && (x =? y)%float then (if get_sign x then y else x)
  else if (y <? x)%float then x else y.

(** [math.Min], with its special cases:
    Min(x, -Inf) = Min(-Inf, x) = -Inf, Min(x, NaN) = Min(NaN, x) = NaN,
    Min(-0, ±0) = Min(±0, -0) = -0. *)
Definition Min (x y : float) : float :=
  if (x =? neg_infinity)%float || (y =? neg_infinity)%float then neg_infinity
  else if is_nan x || is_nan y then nan
  else if (x =? 0)%float && (x =? y)%float then (if get_sign x then x else y)
  else if (x <? y)%float then x else y.

(** [math.Mod]: the remainder of the truncated division, computed exactly;
    its sign is that of [x].  Special cases: Mod(±Inf, y) = Mod(NaN, y) =
    Mod(x, 0) = Mod(x, NaN) = NaN, Mod(x, ±Inf) = x. *)
Definition Mod (x y : float) : float :=
  match Prim2SF x, Prim2SF y with
  | S754_nan, _ | _, S754_nan => nan
  | S754_infinity _, _ => nan
  | _, S754_zero _ => nan
  | _, S754_infinity _ => x
  | S754_zero _, _ => x
  | S754_finite sx mx ex, S754_finite _ my ey =>
      let e := Z.min ex ey in
      let r := (Z.pos mx * 2 ^ (ex - e)) mod (Z.pos my * 2 ^ (ey - e)) in
      let f := SF2Prim (binary_normalize prec emax r e false) in
      if sx then (- f)%float else f
  end.

(** [math.Nextafter]: the next representable value after [x] towards [y]. *)
Definition Nextafter (x y : float) : float :=
  if is_nan x || is_nan y then nan
  else if (x =? y)%float then x
  else if (x <? y)%float then next_up x
  else next_down x.

(** [math.Exp2(float64(z))] for an [int] [z]: the power of two itself,
    +Inf from 1024 on and 0 below -1074. *)
Definition Exp2i (z : Z) : float := Z.ldexp one z.

(** [math.Pow(2.0, float64(z))] for an [int] [z]: the same power of two. *)
Definition Pow2i (z : Z) : float := Z.ldexp one z.

(** [math.Pi] as a [float64] (3.141592653589793). *)
Definition Pi : float := 0x1.921fb54442d18p+1%float.

End GoMath.

(* ================================================================= *)
(** ** normalize *)

(** [const MERCATOR_MAX_LAT = 85.05112878], at the type [float64] where the
    package uses it.  8505112878 and 10^8 are exact in binary64, so their
    correctly rounded quotient is the binary64 nearest to the constant
    (0x1.54345b1a57fp+6). *)
Definition MERCATOR_MAX_LAT : float :=
  (GoMath.of_int 8505112878 / GoMath.of_int 100000000)%float.

(** [func normalize(lon, lat float64) (float64, float64)] *)
Definition normalize (lon lat : float) : float * float :=
  let lon := GoMath.Mod lon 360 in
  let lon :=
    if (lon <=? -180)%float then (lon + 360)%float
    else if (180 <? lon)%float then (lon - 360)%float
    else lon in
  let lat :=
    if (MERCATOR_MAX_LAT <? lat)%float then MERCATOR_MAX_LAT
    else if (lat <? - MERCATOR_MAX_LAT)%float then (- MERCATOR_MAX_LAT)%float
    else lat in
  (lon, lat).

(* ================================================================= *)
(** ** Package orb: points and bounds *)

Module orb.

(** [type Point [2]float64]: longitude, then latitude. *)
Definition Point : Type := (float * float)%type.

(** [type Bound struct { Min, Max Point }] *)
Record Bound : Type := mkBound { Min : Point; Max : Point }.

(** [orb.Bound{}] *)
Definition zero_Bound : Bound := mkBound (0, 0)%float (0, 0)%float.

Definition Left (b : Bound) : float := fst (Min b).
Definition Right (b : Bound) : float := fst (Max b).
Definition Bottom (b : Bound) : float := snd (Min b).
Definition Top (b : Bound) : float := snd (Max b).

(** [func (b Bound) Contains(point Point) bool]: the boundary counts. *)
Definition Contains (b : Bound) (p : Point) : bool :=
  if (snd p <? snd (Min b))%float || (snd (Max b) <? snd p)%float then false
  else if (fst p <? fst (Min b))%float || (fst (Max b) <? fst p)%float then false
  else true.

(** [func (b Bound) Extend(point Point) Bound] *)
Definition Extend (b : Bound) (p : Point) : Bound :=
  if Contains b p then b
  else mkBound (GoMath.Min (fst (Min b)) (fst p), GoMath.Min (snd (Min b)) (snd p))
               (GoMath.Max (fst (Max b)) (fst p), GoMath.Max (snd (Max b)) (snd p)).

(** [func (ls LineString) Bound() Bound]: the rectangle around the points
    of the line string, grown from its first point (an empty line string
    has the package's inverted [emptyBound]). *)
Definition LineString_Bound (ls : list Point) : Bound :=
  match ls with
  | [] => mkBound (1, 1)%float (-1, -1)%float
  | p0 :: _ => fold_left Extend ls (mkBound p0 p0)
  end.

End orb.

(* ================================================================= *)
(** ** Projection, bounds and enumeration *)

(** [func toX(lon float64, z int) int] *)
Definition toX (lon : float) (z : Z) : Z :=
  let n := GoMath.Exp2i z in
  let x := GoMath.Floor ((lon + 180) / 360 * n)%float in
  GoMath.to_int (GoMath.Max 0 (GoMath.Min x (n - 1)%float)).

(** The values [x], [x+1], ..., while [x <= hi], of a loop
    [for x := lo; x <= hi; x++].  ([x++] cannot wrap around here: the
    bounds come from [int(f)], which is never the largest [int].) *)
Definition int_range (lo hi : Z) : list Z :=
  map (fun k => lo + Z.of_nat k) (seq 0 (Z.to_nat (hi - lo + 1))).

(** All the results, or the first panic. *)
Fixpoint collect {A : Type} (l : list (option A)) : option (list A) :=
  match l with
  | [] => Some []
  | o :: l' => a <- o ;; r <- collect l' ;; Some (a :: r)
  end.

Section Mercator.

(** [math.Log], [math.Tan], [math.Cos], [math.Atan], [math.Sinh]. *)
Variables Log Tan Cos Atan Sinh : float -> float.

(** [func toY(lat float64, z int) int] *)
Definition toY (lat : float) (z : Z) : Z :=
  let n := GoMath.Exp2i z in
  let rad := (lat * GoMath.Pi / 180)%float in
  let y := GoMath.Floor
             ((1 - Log (Tan rad + 1 / Cos rad) / GoMath.Pi) / 2 * n)%float in
  GoMath.to_int (GoMath.Max 0 (GoMath.Min y (n - 1)%float)).

(** [func FromLonLat(lon, lat float64, zoom int) QuadKey] *)
Definition FromLonLat (lon lat : float) (zoom : Z) : option QuadKey :=
  let '(lon, lat) := normalize lon lat in
  let x := toX lon zoom in
  let y := toY lat zoom in
  FromXYZ x y zoom.

(** [func (key QuadKey) Bound() orb.Bound] *)
Definition Bound (key : QuadKey) : orb.Bound :=
  match Valid key with
  | Some _ => orb.zero_Bound
  | None =>
      let '(x, y, z) := XYZ key in
      if (x <? 0) || (y <? 0) || (z <? 0) then orb.zero_Bound
      else
        let n := GoMath.Pow2i z in
        let west := (GoMath.of_int x / n * 360 - 180)%float in
        let east := (GoMath.of_int (Int64.add x 1) / n * 360 - 180)%float in
        let north :=
          (Atan (Sinh (GoMath.Pi * (1 - 2 * GoMath.of_int y / n)))
           * 180 / GoMath.Pi)%float in
        let south :=
          (Atan (Sinh (GoMath.Pi * (1 - 2 * GoMath.of_int (Int64.add y 1) / n)))
           * 180 / GoMath.Pi)%float in
        let diagonal := [(west, north); (east, south)] in
        orb.LineString_Bound diagonal
  end.

(** [func KeysInBound(bound orb.Bound, zoom int) []QuadKey];
    [make([]QuadKey, 0, n)] panics when [n] is negative (how large a slice
    the machine can hold is not modelled). *)
Definition KeysInBound (bound : orb.Bound) (zoom : Z) : option (list QuadKey) :=
  let '(west, south) := normalize (orb.Left bound) (orb.Bottom bound) in
  let '(east, north) := normalize (orb.Right bound) (orb.Top bound) in
  let eastIn := east in
  let southIn := south in
  let eastIn :=
    if negb (eastIn =? west)%float then GoMath.Nextafter eastIn west
    else eastIn in
  let southIn :=
    if negb (southIn =? north)%float then GoMath.Nextafter southIn north
    else southIn in
  let minX := toX west zoom in
  let maxX := toX eastIn zoom in
  let minY := toY north zoom in
  let maxY := toY southIn zoom in
  let '(minX, maxX) := if maxX <? minX then (maxX, minX) else (minX, maxX) in
  let '(minY, maxY) := if maxY <? minY then (maxY, minY) else (minY, maxY) in
  if (maxX <? minX) || (maxY <? minY) then Some []
  else
    let n := Int64.mul (Int64.add (Int64.sub maxX minX) 1)
                       (Int64.add (Int64.sub maxY minY) 1) in
    if n <? 0 then None
    else
      collect
        (flat_map
           (fun x => map (fun y => FromXYZ x y zoom) (int_range minY maxY))
           (int_range minX maxX)).

End Mercator.

(** Stand-ins for the five library functions, good enough to run the
    definitions above on sample inputs. *)
Definition id_fn (f : float) : float := f.

(* ================================================================= *)
(** ** Vocabulary of the statements *)

(** A key is well formed when it is not empty and each of its characters
    is one of '0', '1', '2', '3'. *)
Fixpoint all_quad (s : string) : bool :=
  match s with
  | EmptyString => true
  | String c s' => is_quad c && all_quad s'
  end.

Definition valid_key (s : string) : bool :=
  negb (s =? "")%string && all_quad s.

(** The digit of a pair of bits: the x bit counts 1, the y bit 2. *)
Definition quad (bx b_y : bool) : ascii :=
  match bx, b_y with
  | false, false => "0"
  | true, false => "1"
  | false, true => "2"
  | true, true => "3"
  end%char.

Definition xbit (c : ascii) : bool := ((c =? "1") || (c =? "3"))%char.
Definition ybit (c : ascii) : bool := ((c =? "2") || (c =? "3"))%char.

(** The digits of bits [n-1], ..., 0 of [x] and [y], most significant
    first. *)
Fixpoint enc (x y : Z) (n : nat) : string :=
  match n with
  | O => EmptyString
  | S n' =>
      String (quad (Z.testbit x (Z.of_nat n')) (Z.testbit y (Z.of_nat n')))
             (enc x y n')
  end.

(** The number whose bits are the x bits (the y bits) of the digits. *)
Fixpoint dec (bit : ascii -> bool) (s : string) : Z :=
  match s with
  | EmptyString => 0
  | String c s' =>
      Z.lor (if bit c then 2 ^ Z.of_nat (String.length s') else 0) (dec bit s')
  end.

(** A key of [n] characters: the digit [d], then [n-1] zeros. *)
Definition key_d0 (d : ascii) (n : nat) : QuadKey :=
  String d (FromXYZ_loop 0 0 (n - 1)).

(** The coordinate of a child: [x<<1], or [x<<1 + 1]. *)
Definition child_coord (b : bool) (x : Z) : Z :=
  if b then Int64.add (Int64.shl x 1) 1 else Int64.shl x 1.

(** The longitude that [normalize] returns; it does not read the
    latitude. *)
Definition norm_lon (lon : float) : float :=
  fst (normalize lon 0%float).

(** The four edges that [KeysInBound] projects: west, the nudged east,
    north and the nudged south. *)
Definition edges (bound : orb.Bound) : float * float * float * float :=
  let west := fst (normalize (orb.Left bound) (orb.Bottom bound)) in
  let south := snd (normalize (orb.Left bound) (orb.Bottom bound)) in
  let east := fst (normalize (orb.Right bound) (orb.Top bound)) in
  let north := snd (normalize (orb.Right bound) (orb.Top bound)) in
  (west,
   if negb (east =? west)%float then GoMath.Nextafter east west else east,
   north,
   if negb (south =? north)%float then GoMath.Nextafter south north else south).

(** The two longitude edges, from the left and right of the bound alone. *)
Definition x_edges (left right : float) : float * float :=
  let west := norm_lon left in
  let east := norm_lon right in
  (west, if negb (east =? west)%float then GoMath.Nextafter east west else east).

(** What [KeysInBound] does with the four projected numbers. *)
Definition enumerate (a b c d zoom : Z) : option (list QuadKey) :=
  let '(minX, maxX) := if b <? a then (b, a) else (a, b) in
  let '(minY, maxY) := if d <? c then (d, c) else (c, d) in
  if (maxX <? minX) || (maxY <? minY) then Some []
  else
    let n := Int64.mul (Int64.add (Int64.sub maxX minX) 1)
                       (Int64.add (Int64.sub maxY minY) 1) in
    if n <? 0 then None
    else
      collect
        (flat_map
           (fun x => map (fun y => FromXYZ x y zoom) (int_range minY maxY))
           (int_range minX maxX)).

(** The tiles of columns [lo..hi] and rows [ylo..yhi], column by column. *)
Definition tiles (lo hi ylo yhi : Z) (zoom : nat) : list QuadKey :=
  flat_map
    (fun x => map (fun y => FromXYZ_loop x y zoom) (int_range ylo yhi))
    (int_range lo hi).

(** The value of the finite binary64 number [m * 2^e], in units of
    2^-1074 (the smallest positive binary64). *)
Definition fval (m : positive) (e : Z) : Z := Z.pos m * 2 ^ (e + 1074).

(** 180 and 360 share the mantissa [m180]; [K] is the value of 180. *)
Definition m180 : positive := 6333186975989760.
Definition K : Z := fval m180 (-45).

(* ================================================================= *)
(** ** The other constructors *)

(** [func FromKey(key string) (QuadKey, error)] *)
Definition FromKey (key : string) : QuadKey * option error :=
  let quadkey : QuadKey := key in
  match Valid quadkey with
  | Some err => (EmptyString, Some err)
  | None => (quadkey, None)
  end.

(** [func (p Point) Lon() float64] and [func (p Point) Lat() float64] of
    package orb: [p[0]] and [p[1]]. *)
Definition Point_Lon (p : orb.Point) : float := fst p.
Definition Point_Lat (p : orb.Point) : float := snd p.

(** [func FromPoint(point orb.Point, zoom int) QuadKey] *)
Definition FromPoint (Log Tan Cos : float -> float)
    (point : orb.Point) (zoom : Z) : option QuadKey :=
  let '(lon, lat) := normalize (Point_Lon point) (Point_Lat point) in
  let x := toX lon zoom in
  let y := toY Log Tan Cos lat zoom in
  FromXYZ x y zoom.

(** The value of a binary64 number in units of 2^-1074, with its sign;
    0 for what is not a finite number. *)
Definition sval (f : float) : Z :=
  match Prim2SF f with
  | S754_finite s m e => if s then - fval m e else fval m e
  | _ => 0
  end.

(** What toX and toY need of [n := math.Exp2(float64(z))]: [n] is a
    positive number, and [n - 1] is the binary64 of value 2^z - 1. *)
Definition Exp2i_ok (z : Z) : bool :=
  match Prim2SF (GoMath.Exp2i z) with
  | S754_finite false _ _ => true
  | _ => false
  end
  && negb (GoMath.Exp2i z - 1 =? neg_infinity)%float
  && negb (is_nan (GoMath.Exp2i z - 1))
  && (0 <=? GoMath.Exp2i z - 1)%float
  && match Prim2SF (GoMath.Exp2i z - 1) with
     | S754_zero false => z =? 0
     | S754_finite false m e => fval m e =? (2 ^ z - 1) * 2 ^ 1074
     | _ => false
     end.

(** The column of the longitude 180: the last one up to zoom 53, one past
    the last one after. *)
Definition toX_180_ok (z : Z) : bool :=
  toX 180 z =? (if z <=? 53 then 2 ^ z - 1 else 2 ^ z).

(* ================================================================= *)
(** * Results *)

(** ** 64-bit arithmetic *)

Lemma wrap_range (v : Z) : Int64.in_range (Int64.wrap v).
Proof.
  unfold Int64.in_range, Int64.wrap, Int64.min_int, Int64.max_int.
  pose proof (Z.mod_pos_bound (v + 2 ^ 63) (2 ^ 64) ltac:(lia)). lia.
Qed.

Lemma wrap_small (v : Z) : Int64.in_range v -> Int64.wrap v = v.
Proof.
  unfold Int64.in_range, Int64.wrap, Int64.min_int, Int64.max_int. intros H.
  rewrite Z.mod_small by lia. lia.
Qed.

Lemma wrap_mod (v : Z) : Int64.wrap v mod 2 ^ 64 = v mod 2 ^ 64.
Proof.
  unfold Int64.wrap.
  rewrite Zminus_mod_idemp_l. f_equal. lia.
Qed.

Lemma wrap_testbit (v k : Z) :
  0 <= k < 64 -> Z.testbit (Int64.wrap v) k = Z.testbit v k.
Proof.
  intros Hk.
  rewrite <- (Z.mod_pow2_bits_low (Int64.wrap v) 64 k) by lia.
  rewrite <- (Z.mod_pow2_bits_low v 64 k) by lia.
  now rewrite wrap_mod.
Qed.

Lemma wrap_wrap_add (a b : Z) : Int64.wrap (Int64.wrap a + b) = Int64.wrap (a + b).
Proof.
  unfold Int64.wrap at 1 3. f_equal.
  rewrite <- Z.add_assoc, <- Zplus_mod_idemp_l, wrap_mod, Zplus_mod_idemp_l.
  f_equal. lia.
Qed.

Lemma testbit_sign (a : Z) :
  Int64.in_range a -> Z.testbit a 63 = (a <? 0).
Proof.
  unfold Int64.in_range, Int64.min_int, Int64.max_int. intros H.
  rewrite Z.testbit_odd, Z.shiftr_div_pow2 by lia.
  destruct (Z.ltb_spec a 0).
  - replace (a / 2 ^ 63) with (-1); [reflexivity|].
    apply Z.div_unique with (r := a + 2 ^ 63); lia.
  - rewrite Z.div_small by lia. reflexivity.
Qed.

Lemma shl_one (s : Z) :
  0 <= s < 63 -> Int64.shl 1 s = 2 ^ s.
Proof.
  intros H. unfold Int64.shl.
  destruct (Z.leb_spec 64 s); [lia|].
  rewrite Z.shiftl_1_l. apply wrap_small.
  unfold Int64.in_range, Int64.min_int, Int64.max_int.
  pose proof (Z.pow_lt_mono_r 2 s 63 ltac:(lia) ltac:(lia) ltac:(lia)).
  pose proof (Z.pow_pos_nonneg 2 s ltac:(lia) ltac:(lia)). lia.
Qed.

Lemma shl_one_63 : Int64.shl 1 63 = - 2 ^ 63.
Proof. reflexivity. Qed.

(** Testing a word against the mask [1 << s] reads bit [s] of the word. *)
Lemma land_mask (a s : Z) :
  0 <= s < 64 -> Int64.in_range a ->
  negb (Z.land a (Int64.shl 1 s) =? 0) = Z.testbit a s.
Proof.
  intros Hs Ha.
  destruct (Z.eq_dec s 63) as [->|Hne].
  - rewrite shl_one_63, (testbit_sign a Ha).
    destruct (Z.ltb_spec a 0) as [Hneg|Hpos].
    + assert (Z.land a (- 2 ^ 63) < 0) by (apply Z.land_neg; lia).
      destruct (Z.eqb_spec (Z.land a (- 2 ^ 63)) 0); [lia|reflexivity].
    + replace (Z.land a (- 2 ^ 63)) with 0; [reflexivity|].
      symmetry. apply Z.bits_inj'. intros k Hk.
      rewrite Z.land_spec, Z.bits_0.
      destruct (Z.lt_ge_cases k 63).
      * replace (- 2 ^ 63) with (Z.shiftl (-1) 63) by reflexivity.
        rewrite Z.shiftl_spec_low by lia. apply andb_false_r.
      * unfold Int64.in_range, Int64.max_int in Ha.
        destruct (Z.eq_dec a 0) as [->|]; [now rewrite Z.bits_0|].
        rewrite (Z.bits_above_log2 a k); [reflexivity|lia|].
        apply Z.lt_le_trans with 63; [|lia].
        apply Z.log2_lt_pow2; lia.
  - rewrite shl_one by lia.
    destruct (Z.testbit a s) eqn:Hb.
    + destruct (Z.eqb_spec (Z.land a (2 ^ s)) 0) as [E|]; [|reflexivity].
      assert (Z.testbit (Z.land a (2 ^ s)) s = true)
        by (rewrite Z.land_spec, Hb, Z.pow2_bits_true by lia; reflexivity).
      rewrite E, Z.bits_0 in H. discriminate.
    + replace (Z.land a (2 ^ s)) with 0; [reflexivity|].
      symmetry. apply Z.bits_inj'. intros k Hk.
      rewrite Z.land_spec, Z.bits_0, Z.pow2_bits_eqb by lia.
      destruct (Z.eqb_spec s k); [subst; now rewrite Hb|apply andb_false_r].
Qed.

(** ** Digits *)

Lemma is_quad_cases (c : ascii) :
  is_quad c = true -> c = "0"%char \/ c = "1"%char \/ c = "2"%char \/ c = "3"%char.
Proof.
  unfold is_quad. intros H.
  repeat (apply orb_true_iff in H; destruct H as [H|H]);
    apply Ascii.eqb_eq in H; auto.
Qed.

Lemma quad_is_quad (bx b_y : bool) : is_quad (quad bx b_y) = true.
Proof. destruct bx, b_y; reflexivity. Qed.

Lemma quad_bits (c : ascii) : is_quad c = true -> quad (xbit c) (ybit c) = c.
Proof.
  intros H. destruct (is_quad_cases c H) as [->|[->|[->| ->]]]; reflexivity.
Qed.

Lemma xbit_quad (bx b_y : bool) : xbit (quad bx b_y) = bx.
Proof. destruct bx, b_y; reflexivity. Qed.

Lemma ybit_quad (bx b_y : bool) : ybit (quad bx b_y) = b_y.
Proof. destruct bx, b_y; reflexivity. Qed.

Lemma digit_of_quad (x y s : Z) :
  Int64.in_range x -> Int64.in_range y -> 0 <= s < 64 ->
  digit_of x y (Int64.shl 1 s) = quad (Z.testbit x s) (Z.testbit y s).
Proof.
  intros Hx Hy Hs. unfold digit_of.
  rewrite (land_mask x s Hs Hx), (land_mask y s Hs Hy).
  destruct (Z.testbit x s), (Z.testbit y s); reflexivity.
Qed.

(** A key whose x bit is set under the mask gets the digit '1' or '3'. *)
Lemma digit_of_xset (x y m : Z) :
  Z.land x m <> 0 -> digit_of x y m = "1"%char \/ digit_of x y m = "3"%char.
Proof.
  intros H. unfold digit_of.
  destruct (Z.eqb_spec (Z.land x m) 0); [contradiction|].
  destruct (Z.land y m =? 0); cbn; auto.
Qed.

(** Past bit 63 the mask is 0 and the digit is '0'. *)
Lemma digit_of_high (x y s : Z) :
  64 <= s -> digit_of x y (Int64.shl 1 s) = "0"%char.
Proof.
  intros Hs. unfold digit_of, Int64.shl.
  destruct (Z.leb_spec 64 s); [|lia].
  now rewrite !Z.land_0_r.
Qed.

Lemma FromXYZ_loop_enc (x y : Z) (n : nat) :
  Int64.in_range x -> Int64.in_range y -> (n <= 64)%nat ->
  FromXYZ_loop x y n = enc x y n.
Proof.
  intros Hx Hy. induction n as [|n IH]; intros Hn; [reflexivity|].
  cbn [FromXYZ_loop enc].
  replace (Z.of_nat (S n) - 1) with (Z.of_nat n) by lia.
  rewrite digit_of_quad by (auto; lia).
  now rewrite IH by lia.
Qed.

Lemma length_enc (x y : Z) (n : nat) : String.length (enc x y n) = n.
Proof. induction n; cbn [enc String.length]; congruence. Qed.

Lemma all_quad_enc (x y : Z) (n : nat) : all_quad (enc x y n) = true.
Proof.
  induction n; cbn [enc all_quad]; [reflexivity|].
  now rewrite quad_is_quad, IHn.
Qed.

(** [enc] reads only the bits below [n]. *)
Lemma enc_ext (x x' y y' : Z) (n : nat) :
  (forall k, 0 <= k < Z.of_nat n -> Z.testbit x' k = Z.testbit x k) ->
  (forall k, 0 <= k < Z.of_nat n -> Z.testbit y' k = Z.testbit y k) ->
  enc x' y' n = enc x y n.
Proof.
  induction n as [|n IH]; intros Hx Hy; [reflexivity|].
  cbn [enc]. rewrite Hx, Hy by lia. f_equal.
  apply IH; intros k Hk; [apply Hx|apply Hy]; lia.
Qed.

(** Doubling the coordinates and adding a bit appends a digit. *)
Lemma enc_snoc (x x' y y' : Z) (bx b_y : bool) (n : nat) :
  (forall k, 0 <= k < Z.of_nat n -> Z.testbit x' (k + 1) = Z.testbit x k) ->
  (forall k, 0 <= k < Z.of_nat n -> Z.testbit y' (k + 1) = Z.testbit y k) ->
  Z.testbit x' 0 = bx -> Z.testbit y' 0 = b_y ->
  enc x' y' (S n) = (enc x y n ++ String (quad bx b_y) EmptyString)%string.
Proof.
  intros Hx Hy H0x H0y. induction n as [|n IH].
  - cbn [enc append]. change (Z.of_nat 0) with 0. now rewrite H0x, H0y.
  - change (enc x' y' (S (S n)))
      with (String (quad (Z.testbit x' (Z.of_nat (S n))) (Z.testbit y' (Z.of_nat (S n))))
                   (enc x' y' (S n))).
    rewrite IH by (intros k Hk; first [apply Hx|apply Hy]; lia).
    replace (Z.of_nat (S n)) with (Z.of_nat n + 1) by lia.
    rewrite Hx, Hy by lia. reflexivity.
Qed.

(** ** Validation *)

Lemma Valid_loop_all_quad (s : string) (i : Z) :
  Valid_loop s i = None <-> all_quad s = true.
Proof.
  revert i. induction s as [|c s IH]; intros i; cbn [Valid_loop all_quad].
  - tauto.
  - destruct (is_quad c); cbn [andb]; [apply IH|].
    split; discriminate.
Qed.

Lemma Valid_valid_key (s : string) : Valid s = None <-> valid_key s = true.
Proof.
  unfold Valid, valid_key.
  destruct (String.eqb s "") eqn:E; cbn [negb andb].
  - split; discriminate.
  - apply Valid_loop_all_quad.
Qed.

Lemma Valid_loop_error (s : string) (i : Z) (e : error) :
  Valid_loop s i = Some e -> exists j c, e = ErrDigit j c /\ is_quad c = false.
Proof.
  revert i. induction s as [|c s IH]; intros i; cbn [Valid_loop]; [discriminate|].
  destruct (is_quad c) eqn:E; [apply IH|].
  intros [= <-]. eauto.
Qed.

Lemma valid_key_nonempty (s : string) :
  valid_key s = true -> (1 <= String.length s)%nat /\ all_quad s = true.
Proof.
  unfold valid_key. intros H. apply andb_true_iff in H. destruct H as [H1 H2].
  split; [|assumption]. destruct s; [discriminate|cbn; lia].
Qed.

Lemma valid_key_enc (x y : Z) (n : nat) :
  (1 <= n)%nat -> valid_key (enc x y n) = true.
Proof.
  intros Hn. unfold valid_key. rewrite all_quad_enc.
  destruct n; [lia|reflexivity].
Qed.

(** ** Decoding *)

Lemma lor_below (a b n : Z) :
  0 <= n -> 0 <= a < 2 ^ n -> 0 <= b < 2 ^ n -> 0 <= Z.lor a b < 2 ^ n.
Proof.
  intros Hn Ha Hb. split; [apply Z.lor_nonneg; lia|].
  destruct (Z.eq_dec (Z.lor a b) 0) as [->|Hne]; [lia|].
  apply Z.log2_lt_pow2; [pose proof (proj2 (Z.lor_nonneg a b)); lia|].
  rewrite Z.log2_lor by lia.
  destruct (Z.eq_dec a 0) as [->|]; destruct (Z.eq_dec b 0) as [->|];
    cbn [Z.log2]; try (rewrite Z.lor_0_l in Hne || rewrite Z.lor_0_r in Hne);
    try lia.
  - rewrite Z.max_r by apply Z.log2_nonneg. apply Z.log2_lt_pow2; lia.
  - rewrite Z.max_l by apply Z.log2_nonneg. apply Z.log2_lt_pow2; lia.
  - apply Z.max_lub_lt; apply Z.log2_lt_pow2; lia.
Qed.

Lemma dec_range (bit : ascii -> bool) (s : string) :
  0 <= dec bit s < 2 ^ Z.of_nat (String.length s).
Proof.
  induction s as [|c s IH]; cbn [dec String.length]; [cbn; lia|].
  assert (2 ^ Z.of_nat (S (String.length s)) = 2 * 2 ^ Z.of_nat (String.length s))
    by (rewrite Nat2Z.inj_succ, Z.pow_succ_r; lia).
  apply lor_below; [lia| |lia].
  destruct (bit c); lia.
Qed.

Lemma testbit_above (a n k : Z) :
  0 <= a < 2 ^ n -> n <= k -> Z.testbit a k = false.
Proof.
  intros Ha Hk.
  assert (0 <= n) by (destruct (Z.lt_ge_cases n 0); [rewrite Z.pow_neg_r in Ha; lia|lia]).
  rewrite <- (Z.mod_small a (2 ^ n)) by lia.
  apply Z.mod_pow2_bits_high. lia.
Qed.

(** On a well-formed key of at most 63 characters the loop of [XYZ] adds
    the decoded bits to its accumulators. *)
Lemma XYZ_loop_dec (rest : string) (xa ya : Z) :
  all_quad rest = true -> (String.length rest <= 63)%nat ->
  XYZ_loop rest (Z.of_nat (String.length rest)) xa ya
  = Some (Z.lor xa (dec xbit rest), Z.lor ya (dec ybit rest)).
Proof.
  revert xa ya. induction rest as [|c rest IH]; intros xa ya Hq Hlen.
  - cbn. now rewrite !Z.lor_0_r.
  - cbn [all_quad] in Hq. apply andb_true_iff in Hq. destruct Hq as [Hc Hq].
    cbn [String.length] in Hlen.
    cbn [XYZ_loop dec String.length].
    replace (Z.of_nat (S (String.length rest)) - 1)
      with (Z.of_nat (String.length rest)) by lia.
    rewrite shl_one by lia.
    destruct (is_quad_cases c Hc) as [->|[->|[->| ->]]]; cbn;
      rewrite IH by (auto; lia);
      rewrite ?Z.lor_0_l, ?Z.lor_assoc; reflexivity.
Qed.

(** A well-formed key never reaches the [default:] branch, whatever its
    length. *)
Lemma XYZ_loop_some (rest : string) (i xa ya : Z) :
  all_quad rest = true -> exists x y, XYZ_loop rest i xa ya = Some (x, y).
Proof.
  revert i xa ya. induction rest as [|c rest IH]; intros i xa ya Hq.
  - cbn. eauto.
  - cbn [all_quad] in Hq. apply andb_true_iff in Hq. destruct Hq as [Hc Hq].
    cbn [XYZ_loop].
    destruct (is_quad_cases c Hc) as [->|[->|[->| ->]]]; cbn; apply IH; assumption.
Qed.

Lemma pow2_bit_step (x n : Z) :
  0 <= n ->
  Z.lor (if Z.testbit x n then 2 ^ n else 0) (x mod 2 ^ n) = x mod 2 ^ (n + 1).
Proof.
  intros Hn. apply Z.bits_inj'. intros k Hk.
  rewrite Z.lor_spec.
  destruct (Z.lt_trichotomy k n) as [Hlt|[->|Hgt]].
  - rewrite !Z.mod_pow2_bits_low by lia.
    destruct (Z.testbit x n); [rewrite Z.pow2_bits_false by lia|rewrite Z.bits_0];
      reflexivity.
  - rewrite Z.mod_pow2_bits_high, Z.mod_pow2_bits_low by lia.
    destruct (Z.testbit x n); [rewrite Z.pow2_bits_true by lia|rewrite Z.bits_0];
      reflexivity.
  - rewrite !Z.mod_pow2_bits_high by lia.
    destruct (Z.testbit x n); [rewrite Z.pow2_bits_false by lia|rewrite Z.bits_0];
      reflexivity.
Qed.

Lemma dec_enc_x (x y : Z) (n : nat) : dec xbit (enc x y n) = x mod 2 ^ Z.of_nat n.
Proof.
  induction n as [|n IH]; [cbn; now rewrite Z.mod_1_r|].
  cbn [enc dec]. rewrite xbit_quad, length_enc, IH.
  rewrite Nat2Z.inj_succ. apply pow2_bit_step. lia.
Qed.

Lemma dec_enc_y (x y : Z) (n : nat) : dec ybit (enc x y n) = y mod 2 ^ Z.of_nat n.
Proof.
  induction n as [|n IH]; [cbn; now rewrite Z.mod_1_r|].
  cbn [enc dec]. rewrite ybit_quad, length_enc, IH.
  rewrite Nat2Z.inj_succ. apply pow2_bit_step. lia.
Qed.

Lemma testbit_dec_top (bit : ascii -> bool) (c : ascii) (s : string) :
  Z.testbit (dec bit (String c s)) (Z.of_nat (String.length s)) = bit c.
Proof.
  cbn [dec]. rewrite Z.lor_spec.
  rewrite (testbit_above (dec bit s) (Z.of_nat (String.length s))
             (Z.of_nat (String.length s)) (dec_range bit s)) by lia.
  destruct (bit c); [rewrite Z.pow2_bits_true by lia|rewrite Z.bits_0]; reflexivity.
Qed.

Lemma testbit_dec_low (bit : ascii -> bool) (c : ascii) (s : string) (k : Z) :
  0 <= k < Z.of_nat (String.length s) ->
  Z.testbit (dec bit (String c s)) k = Z.testbit (dec bit s) k.
Proof.
  intros Hk. cbn [dec]. rewrite Z.lor_spec.
  destruct (bit c); [rewrite Z.pow2_bits_false by lia|rewrite Z.bits_0]; reflexivity.
Qed.

Lemma enc_dec (s : string) :
  all_quad s = true -> enc (dec xbit s) (dec ybit s) (String.length s) = s.
Proof.
  induction s as [|c s IH]; intros Hq; [reflexivity|].
  cbn [all_quad] in Hq. apply andb_true_iff in Hq. destruct Hq as [Hc Hq].
  cbn [String.length enc].
  rewrite !testbit_dec_top, (quad_bits c Hc). f_equal.
  transitivity (enc (dec xbit s) (dec ybit s) (String.length s)); [|exact (IH Hq)].
  apply enc_ext; intros k Hk; apply testbit_dec_low; assumption.
Qed.

(** What [XYZ] returns on a well-formed key of at most 63 characters. *)
Lemma XYZ_dec (key : QuadKey) :
  valid_key key = true -> (String.length key <= 63)%nat ->
  XYZ key = (dec xbit key, dec ybit key, Z.of_nat (String.length key)).
Proof.
  intros Hv Hlen. unfold XYZ.
  rewrite (proj2 (Valid_valid_key key) Hv). unfold Z_.
  rewrite XYZ_loop_dec by (apply valid_key_nonempty in Hv; tauto).
  now rewrite !Z.lor_0_l.
Qed.

(** Decoding after encoding, for every zoom the 64-bit [int] can hold. *)
Lemma XYZ_FromXYZ (x y z : Z) :
  1 <= z <= 63 -> 0 <= x < 2 ^ z -> 0 <= y < 2 ^ z ->
  option_map XYZ (FromXYZ x y z) = Some (x, y, z).
Proof.
  intros Hz Hx Hy. unfold FromXYZ.
  destruct (Z.ltb_spec z 0); [lia|]. cbn [option_map]. f_equal.
  assert (Hp : 2 ^ z <= 2 ^ 63) by (apply Z.pow_le_mono_r; lia).
  rewrite FromXYZ_loop_enc
    by (unfold Int64.in_range, Int64.min_int, Int64.max_int; lia).
  rewrite XYZ_dec by first [apply valid_key_enc; lia | rewrite length_enc; lia].
  rewrite dec_enc_x, dec_enc_y, length_enc, Z2Nat.id by lia.
  now rewrite !Z.mod_small by lia.
Qed.

(** C1. Encode/decode round trip: for every zoom [z] with 1 <= z <= 20 and
    all integers [x], [y] with 0 <= x < 2^z and 0 <= y < 2^z,
    XYZ(FromXYZ(x, y, z)) returns exactly (x, y, z). *)
Theorem C1_roundtrip (x y z : Z) :
  1 <= z <= 20 -> 0 <= x < 2 ^ z -> 0 <= y < 2 ^ z ->
  exists k, FromXYZ x y z = Some k /\ XYZ k = (x, y, z).
Proof.
  intros Hz Hx Hy.
  pose proof (XYZ_FromXYZ x y z ltac:(lia) Hx Hy) as H.
  destruct (FromXYZ x y z) as [k|]; [|discriminate].
  exists k. split; [reflexivity|]. now injection H.
Qed.

Lemma C1_roundtrip_witness :
  exists k, FromXYZ 215 100 8 = Some k /\ XYZ k = (215, 100, 8).
Proof. apply (C1_roundtrip 215 100 8); cbn; lia. Defined.

(** ** Children *)

Lemma shl1_bit0 (x : Z) : Z.testbit (Int64.shl x 1) 0 = false.
Proof.
  unfold Int64.shl. cbn [Z.leb Z.compare Pos.compare Pos.compare_cont].
  rewrite wrap_testbit by lia.
  rewrite Z.shiftl_spec_low by lia. reflexivity.
Qed.

Lemma shl1_bits (x k : Z) :
  0 <= k < 63 -> Z.testbit (Int64.shl x 1) (k + 1) = Z.testbit x k.
Proof.
  intros Hk. unfold Int64.shl. cbn [Z.leb Z.compare Pos.compare Pos.compare_cont].
  rewrite wrap_testbit by lia.
  rewrite Z.shiftl_spec by lia. f_equal. lia.
Qed.

Lemma shl1_succ (x : Z) : Int64.add (Int64.shl x 1) 1 = Int64.wrap (2 * x + 1).
Proof.
  unfold Int64.add, Int64.shl. cbn [Z.leb Z.compare Pos.compare Pos.compare_cont].
  rewrite wrap_wrap_add, Z.shiftl_mul_pow2 by lia. f_equal. lia.
Qed.

Lemma shl1_succ_bit0 (x : Z) : Z.testbit (Int64.add (Int64.shl x 1) 1) 0 = true.
Proof.
  rewrite shl1_succ, wrap_testbit by lia. apply Z.testbit_odd_0.
Qed.

Lemma shl1_succ_bits (x k : Z) :
  0 <= k < 63 -> Z.testbit (Int64.add (Int64.shl x 1) 1) (k + 1) = Z.testbit x k.
Proof.
  intros Hk. rewrite shl1_succ, wrap_testbit by lia.
  apply Z.testbit_odd_succ. lia.
Qed.

Lemma child_coord_range (b : bool) (x : Z) : Int64.in_range (child_coord b x).
Proof.
  unfold child_coord, Int64.add, Int64.shl.
  cbn [Z.leb Z.compare Pos.compare Pos.compare_cont].
  destruct b; apply wrap_range.
Qed.

Lemma FromXYZ_child (key : QuadKey) (bx b_y : bool) :
  all_quad key = true -> (String.length key <= 63)%nat ->
  FromXYZ (child_coord bx (dec xbit key)) (child_coord b_y (dec ybit key))
          (Int64.add (Z.of_nat (String.length key)) 1)
  = Some (key ++ String (quad bx b_y) EmptyString)%string.
Proof.
  intros Hq Hlen. unfold FromXYZ.
  unfold Int64.add.
  rewrite wrap_small
    by (unfold Int64.in_range, Int64.min_int, Int64.max_int; lia).
  destruct (Z.ltb_spec (Z.of_nat (String.length key) + 1) 0); [lia|].
  replace (Z.to_nat (Z.of_nat (String.length key) + 1))
    with (S (String.length key)) by lia.
  rewrite FromXYZ_loop_enc by (auto using child_coord_range; lia).
  f_equal.
  transitivity (enc (dec xbit key) (dec ybit key) (String.length key)
                ++ String (quad bx b_y) EmptyString)%string;
    [|now rewrite (enc_dec key Hq)].
  apply enc_snoc.
  - intros k Hk. destruct bx; cbn [child_coord];
      [apply shl1_succ_bits|apply shl1_bits]; lia.
  - intros k Hk. destruct b_y; cbn [child_coord];
      [apply shl1_succ_bits|apply shl1_bits]; lia.
  - destruct bx; cbn [child_coord]; [apply shl1_succ_bit0|apply shl1_bit0].
  - destruct b_y; cbn [child_coord]; [apply shl1_succ_bit0|apply shl1_bit0].
Qed.

Lemma Children_invalid (k : QuadKey) : valid_key k = false -> Children k = Some [].
Proof.
  intros H. unfold Children.
  destruct (Valid k) eqn:E; [reflexivity|].
  apply Valid_valid_key in E. congruence.
Qed.

(** C2 as stated fails: the key made of '1' and 63 zeros is well formed,
    and [Children] returns no key for it. *)
Lemma C2_counterexample :
  valid_key (key_d0 "1" 64) = true
  /\ Children (key_d0 "1" 64) = Some []
  /\ Children (key_d0 "1" 64)
     <> Some [key_d0 "1" 64 ++ "0"; key_d0 "1" 64 ++ "1";
              key_d0 "1" 64 ++ "2"; key_d0 "1" 64 ++ "3"]%string.
Proof.
  assert (H : Children (key_d0 "1" 64) = Some []) by (vm_compute; reflexivity).
  split; [vm_compute; reflexivity|]. split; [exact H|].
  rewrite H. discriminate.
Qed.

(** C2, amended.  Children enumeration: for every valid key [k] of at most
    63 characters, Children(k) returns exactly 4 keys, the i-th being [k]
    with the digit i appended, in that order; for every invalid key (empty
    or with a character outside '0'..'3'), Children returns the empty
    list. *)
Theorem C2_children (k : QuadKey) :
  (valid_key k = true -> (String.length k <= 63)%nat ->
   Children k = Some [k ++ "0"; k ++ "1"; k ++ "2"; k ++ "3"]%string)
  /\ (valid_key k = false -> Children k = Some []).
Proof.
  split; [|apply Children_invalid].
  intros Hv Hlen. unfold Children.
  rewrite (proj2 (Valid_valid_key k) Hv), (XYZ_dec k Hv Hlen).
  pose proof (dec_range xbit k) as Hx. pose proof (dec_range ybit k) as Hy.
  destruct (Z.ltb_spec (dec xbit k) 0); [lia|].
  destruct (Z.ltb_spec (dec ybit k) 0); [lia|].
  destruct (Z.ltb_spec (Z.of_nat (String.length k)) 0); [lia|].
  cbn [orb].
  apply valid_key_nonempty in Hv. destruct Hv as [_ Hq].
  pose proof (FromXYZ_child k false false Hq Hlen) as K0.
  pose proof (FromXYZ_child k true false Hq Hlen) as K1.
  pose proof (FromXYZ_child k false true Hq Hlen) as K2.
  pose proof (FromXYZ_child k true true Hq Hlen) as K3.
  cbn [child_coord quad] in K0, K1, K2, K3. cbv zeta.
  now rewrite K0, K1, K2, K3.
Qed.

Lemma C2_children_witness :
  (valid_key "12" = true /\ (String.length "12" <= 63)%nat
   /\ Children "12" = Some ["120"; "121"; "122"; "123"])%string
  /\ (valid_key "01a3" = false /\ Children "01a3"%string = Some []).
Proof.
  split.
  - split; [reflexivity|]. split; [cbn; lia|].
    apply (proj1 (C2_children "12"%string)); [reflexivity|cbn; lia].
  - split; [reflexivity|].
    apply (proj2 (C2_children "01a3"%string)). reflexivity.
Defined.

(** ** Parent *)

Lemma substring_init (s : string) :
  s <> EmptyString ->
  exists p c, s = (p ++ String c EmptyString)%string
              /\ substring 0 (String.length s - 1) s = p.
Proof.
  induction s as [|a s IH]; intros Hne; [congruence|].
  destruct s as [|b s].
  - exists EmptyString, a. split; reflexivity.
  - destruct IH as (p & c & Hs & Hsub); [discriminate|].
    exists (String a p), c. split.
    + cbn [append]. now rewrite <- Hs.
    + replace (String.length (String a (String b s)) - 1)%nat
        with (S (String.length (String b s) - 1)) by (cbn [String.length]; lia).
      change (substring 0 (S (String.length (String b s) - 1)) (String a (String b s)))
        with (String a (substring 0 (String.length (String b s) - 1) (String b s))).
      now rewrite Hsub.
Qed.

Lemma Valid_error_kind (k : QuadKey) (e : error) :
  Valid k = Some e -> e = ErrEmpty \/ exists i c, e = ErrDigit i c.
Proof.
  unfold Valid. destruct (String.eqb k ""); [intros [= <-]; auto|].
  intros H. right. destruct (Valid_loop_error _ _ _ H) as (j & c & -> & _). eauto.
Qed.

(** C3. Parent semantics and errors: for every valid key of length >= 2,
    Parent returns the key with its last character removed and no error;
    for every valid key of length exactly 1, Parent fails with the root
    error; for every invalid key (empty or with a character outside
    '0'..'3'), Parent fails with an invalid-key error (the error of
    Valid). *)
Theorem C3_parent (k : QuadKey) :
  (valid_key k = true -> (2 <= String.length k)%nat ->
   exists p c, k = (p ++ String c EmptyString)%string /\ Parent k = (p, None))
  /\ (valid_key k = true -> String.length k = 1%nat ->
      Parent k = (EmptyString, Some ErrRoot))
  /\ (valid_key k = false ->
      exists e, Parent k = (EmptyString, Some e) /\ Valid k = Some e
                /\ (e = ErrEmpty \/ exists i c, e = ErrDigit i c)).
Proof.
  unfold Parent. repeat split.
  - intros Hv Hlen. rewrite (proj2 (Valid_valid_key k) Hv). unfold Z_.
    destruct (Z.eqb_spec (Z.of_nat (String.length k)) 1); [lia|].
    destruct (substring_init k) as (p & c & Hk & Hsub);
      [destruct k; [cbn in Hlen; lia|discriminate]|].
    exists p, c. split; [assumption|].
    replace (Z.to_nat (Z.of_nat (String.length k) - 1))
      with (String.length k - 1)%nat by lia.
    now rewrite Hsub.
  - intros Hv Hlen. rewrite (proj2 (Valid_valid_key k) Hv). unfold Z_.
    now rewrite Hlen.
  - intros Hv. destruct (Valid k) as [e|] eqn:E.
    + exists e. split; [reflexivity|]. split; [reflexivity|].
      now apply Valid_error_kind with k.
    + apply Valid_valid_key in E. congruence.
Qed.

Lemma C3_parent_witness :
  ((valid_key "0123" = true /\ (2 <= String.length "0123")%nat
    /\ exists p c, "0123" = p ++ String c "" /\ Parent "0123" = (p, None))
   /\ (valid_key "0" = true /\ String.length "0" = 1%nat
       /\ Parent "0" = ("", Some ErrRoot))
   /\ (valid_key "01a3" = false
       /\ exists e, Parent "01a3" = ("", Some e) /\ Valid "01a3" = Some e
                    /\ (e = ErrEmpty \/ exists i c, e = ErrDigit i c)))%string.
Proof.
  pose proof (C3_parent "0123"%string) as (H1 & _ & _).
  pose proof (C3_parent "0"%string) as (_ & H2 & _).
  pose proof (C3_parent "01a3"%string) as (_ & _ & H3).
  repeat split; try reflexivity; try (cbn; lia).
  - apply H1; [reflexivity|cbn; lia].
  - apply H3. reflexivity.
Defined.

(** ** Validation and decoding *)

(** C4 as stated fails: the key made of '1' and 63 zeros passes [Valid],
    and [XYZ] returns a negative x for it. *)
Lemma C4_counterexample :
  Valid (key_d0 "1" 64) = None
  /\ XYZ (key_d0 "1" 64) = (- 2 ^ 63, 0, 64).
Proof. split; vm_compute; reflexivity. Qed.

(** C4, amended.  Validity partition and validate/decode agreement: for
    every string [s], Valid(s) succeeds if and only if [s] is non-empty and
    each of its characters is one of '0','1','2','3'; XYZ(s) returns the
    sentinel (-1,-1,-1) exactly when Valid(s) fails; it returns a triple
    whose z is the length of [s] exactly when Valid(s) succeeds, and then x
    and y are non-negative provided [s] has at most 63 characters. *)
Theorem C4_validity (s : string) :
  (Valid s = None <-> valid_key s = true)
  /\ (XYZ s = (-1, -1, -1) <-> Valid s <> None)
  /\ ((exists x y, XYZ s = (x, y, Z_ s)) <-> Valid s = None)
  /\ (Valid s = None -> (String.length s <= 63)%nat ->
      exists x y, XYZ s = (x, y, Z_ s) /\ 0 <= x /\ 0 <= y).
Proof.
  assert (Hs : Valid s = None -> exists x y, XYZ s = (x, y, Z_ s)).
  { intros Hv. unfold XYZ. rewrite Hv.
    apply Valid_valid_key, valid_key_nonempty in Hv. destruct Hv as [_ Hq].
    destruct (XYZ_loop_some s (Z_ s) 0 0 Hq) as (x & y & ->). eauto. }
  assert (Hf : Valid s <> None -> XYZ s = (-1, -1, -1)).
  { intros Hv. unfold XYZ. destruct (Valid s); [reflexivity|congruence]. }
  assert (Hz : 0 <= Z_ s) by (unfold Z_; lia).
  split; [apply Valid_valid_key|]. split; [|split].
  - split; [|exact Hf].
    intros Hx Hv. destruct (Hs Hv) as (x & y & E). rewrite E in Hx.
    injection Hx as _ _ Hx. lia.
  - split; [|exact Hs].
    intros (x & y & E). destruct (Valid s) eqn:Hv; [|reflexivity].
    rewrite Hf in E by discriminate. injection E as _ _ E. lia.
  - intros Hv Hlen. apply Valid_valid_key in Hv.
    rewrite (XYZ_dec s Hv Hlen). exists (dec xbit s), (dec ybit s).
    pose proof (dec_range xbit s). pose proof (dec_range ybit s).
    unfold Z_. repeat split; lia.
Qed.

Lemma C4_validity_witness :
  Valid "13300221"%string = None
  /\ (String.length "13300221" <= 63)%nat
  /\ exists x y, XYZ "13300221"%string = (x, y, Z_ "13300221"%string)
                 /\ 0 <= x /\ 0 <= y.
Proof.
  split; [reflexivity|]. split; [cbn; lia|].
  apply (proj2 (proj2 (proj2 (C4_validity "13300221"%string))));
    [reflexivity|cbn; lia].
Defined.

(** ** Enumeration *)

Lemma int_range_cons (lo hi : Z) :
  lo <= hi -> int_range lo hi = lo :: int_range (lo + 1) hi.
Proof.
  intros H. unfold int_range.
  replace (Z.to_nat (hi - lo + 1)) with (S (Z.to_nat (hi - (lo + 1) + 1))) by lia.
  cbn [seq map]. f_equal; [lia|].
  rewrite <- seq_shift, map_map. apply map_ext. intros k. lia.
Qed.

Lemma int_range_one (a : Z) : int_range a a = [a].
Proof.
  unfold int_range. replace (a - a + 1) with 1 by lia.
  change (Z.to_nat 1) with 1%nat. cbn [seq map]. f_equal. lia.
Qed.

Lemma in_int_range (lo hi v : Z) : In v (int_range lo hi) <-> lo <= v <= hi.
Proof.
  unfold int_range. rewrite in_map_iff. split.
  - intros (k & <- & Hk). apply in_seq in Hk. lia.
  - intros H. exists (Z.to_nat (v - lo)). split; [lia|]. apply in_seq. lia.
Qed.

Lemma collect_Some {A : Type} (l : list A) : collect (map Some l) = Some l.
Proof. induction l as [|a l IH]; cbn; [reflexivity|now rewrite IH]. Qed.

Lemma FromXYZ_nonneg (x y zoom : Z) :
  0 <= zoom -> FromXYZ x y zoom = Some (FromXYZ_loop x y (Z.to_nat zoom)).
Proof. intros H. unfold FromXYZ. destruct (Z.ltb_spec zoom 0); [lia|reflexivity]. Qed.

Lemma FromXYZ_Some (x y zoom : Z) (k : QuadKey) :
  FromXYZ x y zoom = Some k -> 0 <= zoom.
Proof. unfold FromXYZ. destruct (Z.ltb_spec zoom 0); [discriminate|lia]. Qed.

Lemma tiles_Some (lo hi ylo yhi zoom : Z) :
  0 <= zoom ->
  flat_map (fun x => map (fun y => FromXYZ x y zoom) (int_range ylo yhi))
           (int_range lo hi)
  = map Some (tiles lo hi ylo yhi (Z.to_nat zoom)).
Proof.
  intros Hz. unfold tiles.
  induction (int_range lo hi) as [|x xs IH]; [reflexivity|].
  cbn [flat_map]. rewrite map_app, IH, map_map. f_equal.
  apply map_ext. intros y. now apply FromXYZ_nonneg.
Qed.

(** Past the swaps the enumeration walks a non-empty rectangle. *)
Lemma enumerate_Some (a b c d zoom : Z) (l : list QuadKey) :
  enumerate a b c d zoom = Some l ->
  0 <= zoom
  /\ l = tiles (Z.min a b) (Z.max a b) (Z.min c d) (Z.max c d) (Z.to_nat zoom).
Proof.
  unfold enumerate.
  assert (Hx : (if b <? a then (b, a) else (a, b)) = (Z.min a b, Z.max a b))
    by (destruct (Z.ltb_spec b a); f_equal; lia).
  assert (Hy : (if d <? c then (d, c) else (c, d)) = (Z.min c d, Z.max c d))
    by (destruct (Z.ltb_spec d c); f_equal; lia).
  rewrite Hx, Hy.
  destruct (Z.ltb_spec (Z.max a b) (Z.min a b)); [lia|].
  destruct (Z.ltb_spec (Z.max c d) (Z.min c d)); [lia|].
  cbn [orb]. cbv zeta.
  destruct (_ <? 0); [discriminate|].
  intros Hl.
  assert (Hz : 0 <= zoom).
  { rewrite (int_range_cons (Z.min a b)), (int_range_cons (Z.min c d)) in Hl by lia.
    cbn [flat_map map app collect] in Hl.
    destruct (FromXYZ (Z.min a b) (Z.min c d) zoom) eqn:E; [|discriminate].
    now apply FromXYZ_Some in E. }
  split; [assumption|].
  rewrite tiles_Some, collect_Some in Hl by assumption. now injection Hl.
Qed.

Lemma tiles_nonempty (lo hi ylo yhi : Z) (zoom : nat) :
  lo <= hi -> ylo <= yhi ->
  exists l, tiles lo hi ylo yhi zoom = FromXYZ_loop lo ylo zoom :: l.
Proof.
  intros Hx Hy. unfold tiles.
  rewrite (int_range_cons lo hi Hx), (int_range_cons ylo yhi Hy).
  cbn [flat_map map app]. eauto.
Qed.

Lemma in_tiles (lo hi ylo yhi : Z) (zoom : nat) (k : QuadKey) :
  In k (tiles lo hi ylo yhi zoom) <->
  exists x y, lo <= x <= hi /\ ylo <= y <= yhi /\ k = FromXYZ_loop x y zoom.
Proof.
  unfold tiles. rewrite in_flat_map. split.
  - intros (x & Hx & Hk). apply in_map_iff in Hk. destruct Hk as (y & <- & Hy).
    exists x, y. rewrite in_int_range in Hx, Hy. auto.
  - intros (x & y & Hx & Hy & ->). exists x.
    split; [now apply in_int_range|].
    apply in_map_iff. exists y. split; [reflexivity|now apply in_int_range].
Qed.

(** ** Bounds and enumeration on binary64 *)

Section MercatorFacts.
Variables Log Tan Cos Atan Sinh : float -> float.

Lemma KeysInBound_enumerate (bound : orb.Bound) (zoom : Z) :
  KeysInBound Log Tan Cos bound zoom
  = let '(w, e, n, s) := edges bound in
    enumerate (toX w zoom) (toX e zoom)
              (toY Log Tan Cos n zoom) (toY Log Tan Cos s zoom) zoom.
Proof.
  unfold KeysInBound, edges, enumerate.
  destruct (normalize (orb.Left bound) (orb.Bottom bound)) as [west south].
  destruct (normalize (orb.Right bound) (orb.Top bound)) as [east north].
  reflexivity.
Qed.

(** The longitudes of the rectangle around a diagonal that runs from west
    to east. *)
Lemma LineString_Bound_lon (w e n s : float) :
  (w <? e)%float = true -> (w <? w)%float = false ->
  GoMath.Min w w = w -> GoMath.Max w w = w ->
  orb.Left (orb.LineString_Bound [(w, n); (e, s)]) = GoMath.Min w e
  /\ orb.Right (orb.LineString_Bound [(w, n); (e, s)]) = GoMath.Max w e.
Proof.
  intros Hwe Hww Hmin Hmax.
  unfold orb.LineString_Bound, orb.Left, orb.Right.
  cbn [fold_left]. unfold orb.Extend, orb.Contains.
  cbn [orb.Min orb.Max fst snd].
  rewrite Hww. cbn [orb.Min orb.Max fst snd].
  destruct (n <? n)%float; cbn [Datatypes.orb orb.Min orb.Max fst snd].
  all: rewrite ?Hmin, ?Hmax, ?Hww, ?Hwe, ?orb_true_r.
  all: destruct (_ || _)%bool; cbn [orb.Min orb.Max fst snd]; auto.
Qed.

(** The left and right of the bound of a key that decodes to (x, y, z),
    from the two longitudes that [Bound] computes. *)
Lemma Bound_lon (k : QuadKey) (x y z : Z) (w e : float) :
  Valid k = None -> XYZ k = (x, y, z) ->
  (x <? 0) || (y <? 0) || (z <? 0) = false ->
  (GoMath.of_int x / GoMath.Pow2i z * 360 - 180)%float = w ->
  (GoMath.of_int (Int64.add x 1) / GoMath.Pow2i z * 360 - 180)%float = e ->
  (w <? e)%float = true -> (w <? w)%float = false ->
  GoMath.Min w w = w -> GoMath.Max w w = w ->
  orb.Left (Bound Atan Sinh k) = GoMath.Min w e
  /\ orb.Right (Bound Atan Sinh k) = GoMath.Max w e.
Proof.
  intros Hv Hxyz Hg Hw He Hwe Hww Hmin Hmax.
  unfold Bound. rewrite Hv, Hxyz, Hg. cbv zeta. rewrite Hw, He.
  now apply LineString_Bound_lon.
Qed.

Lemma Bound_0_lon :
  orb.Left (Bound Atan Sinh "0"%string) = (-180)%float
  /\ orb.Right (Bound Atan Sinh "0"%string) = 0%float.
Proof.
  apply (Bound_lon "0"%string 0 0 1 (-180) 0); reflexivity.
Qed.

Lemma Bound_01_lon :
  orb.Left (Bound Atan Sinh "01"%string) = (-90)%float
  /\ orb.Right (Bound Atan Sinh "01"%string) = 0%float.
Proof.
  apply (Bound_lon "01"%string 1 0 2 (-90) 0); reflexivity.
Qed.

(** The columns that [KeysInBound] walks depend on the left and the right
    of the bound alone. *)
Lemma columns (bound : orb.Bound) (zoom : Z) (l : list QuadKey) :
  KeysInBound Log Tan Cos bound zoom = Some l ->
  exists c d,
    l = tiles
          (Z.min (toX (fst (x_edges (orb.Left bound) (orb.Right bound))) zoom)
                 (toX (snd (x_edges (orb.Left bound) (orb.Right bound))) zoom))
          (Z.max (toX (fst (x_edges (orb.Left bound) (orb.Right bound))) zoom)
                 (toX (snd (x_edges (orb.Left bound) (orb.Right bound))) zoom))
          (Z.min c d) (Z.max c d) (Z.to_nat zoom).
Proof.
  rewrite KeysInBound_enumerate.
  assert (Hw : fst (fst (fst (edges bound)))
               = fst (x_edges (orb.Left bound) (orb.Right bound))) by reflexivity.
  assert (He : snd (fst (fst (edges bound)))
               = snd (x_edges (orb.Left bound) (orb.Right bound))) by reflexivity.
  destruct (edges bound) as [[[w e] n] s].
  cbn [fst snd] in Hw, He. subst w e.
  intros H. apply enumerate_Some in H. destruct H as [_ H]. eauto.
Qed.

(** For the bound of the key "0" only column 1 is walked. *)
Lemma columns_0 (l : list QuadKey) :
  KeysInBound Log Tan Cos (Bound Atan Sinh "0"%string) 1 = Some l ->
  exists c d, l = tiles 1 1 (Z.min c d) (Z.max c d) 1.
Proof.
  intros H. apply columns in H.
  destruct Bound_0_lon as [HL HR]. rewrite HL, HR in H. exact H.
Qed.

(** For the bound of the key "01" columns 1 and 2 are walked. *)
Lemma columns_01 (l : list QuadKey) :
  KeysInBound Log Tan Cos (Bound Atan Sinh "01"%string) 2 = Some l ->
  exists c d, l = tiles 1 2 (Z.min c d) (Z.max c d) 2.
Proof.
  intros H. apply columns in H.
  destruct Bound_01_lon as [HL HR]. rewrite HL, HR in H. exact H.
Qed.

(** Whatever the bound and the zoom, [KeysInBound] panics or returns at
    least one key. *)
Lemma KeysInBound_not_empty (bound : orb.Bound) (zoom : Z) :
  KeysInBound Log Tan Cos bound zoom = None
  \/ exists k l, KeysInBound Log Tan Cos bound zoom = Some (k :: l).
Proof.
  destruct (KeysInBound Log Tan Cos bound zoom) as [l|] eqn:E; [right|now left].
  rewrite KeysInBound_enumerate in E.
  destruct (edges bound) as [[[w e] n] s].
  apply enumerate_Some in E. destruct E as [_ ->].
  destruct (tiles_nonempty (Z.min (toX w zoom) (toX e zoom))
              (Z.max (toX w zoom) (toX e zoom))
              (Z.min (toY Log Tan Cos n zoom) (toY Log Tan Cos s zoom))
              (Z.max (toY Log Tan Cos n zoom) (toY Log Tan Cos s zoom))
              (Z.to_nat zoom)) as [l' ->]; [lia|lia|].
  eauto.
Qed.

(** At the zero-area bound (0,0)-(0,0) and zoom 1, [KeysInBound] returns
    one key. *)
Lemma KeysInBound_zero_area :
  exists k, KeysInBound Log Tan Cos orb.zero_Bound 1 = Some [k].
Proof.
  rewrite KeysInBound_enumerate.
  change (edges orb.zero_Bound) with (0, 0, 0, 0)%float.
  cbv beta iota.
  change (toX 0 1) with 1.
  generalize (toY Log Tan Cos 0 1). intros t.
  unfold enumerate. rewrite !Z.ltb_irrefl. cbn [Datatypes.orb].
  unfold Int64.sub. rewrite !Z.sub_diag. cbv zeta.
  change (Int64.mul (Int64.add (Int64.wrap 0) 1) (Int64.add (Int64.wrap 0) 1) <? 0)
    with false.
  cbv iota. rewrite !int_range_one. cbn [flat_map map app collect].
  change (FromXYZ 1 t 1) with (Some (FromXYZ_loop 1 t 1)). eauto.
Qed.

(** C5 fails on the code.  The claim: for every zoom and every bound of
    zero width or zero height, KeysInBound returns the empty list.  The
    code: at the bound (0,0)-(0,0), of zero width and zero height, and zoom
    1 it returns one key; and for no bound and no zoom does it return the
    empty list. *)
Theorem C5_degenerate_not_empty :
  (exists k, KeysInBound Log Tan Cos orb.zero_Bound 1 = Some [k])
  /\ (forall bound zoom, KeysInBound Log Tan Cos bound zoom = None
        \/ exists k l, KeysInBound Log Tan Cos bound zoom = Some (k :: l)).
Proof.
  split; [exact KeysInBound_zero_area|].
  intros bound zoom. apply KeysInBound_not_empty.
Qed.

(** C7 fails on the code.  The claim: for every valid key [k],
    KeysInBound(Bound(k), k.Z()) contains [k].  The code, at the key "0"
    (x = 0, y = 0, z = 1): whenever the enumeration returns, "0" is not
    among its keys (only column 1 is walked). *)
Theorem C7_bound_of_0_misses_0 (l : list QuadKey) :
  KeysInBound Log Tan Cos (Bound Atan Sinh "0"%string) (Z_ "0"%string) = Some l ->
  ~ In "0"%string l.
Proof.
  change (Z_ "0"%string) with 1.
  intros H Hin. destruct (columns_0 l H) as (c & d & ->).
  apply in_tiles in Hin. destruct Hin as (x & y & Hx & _ & Hk).
  assert (x = 1) by lia. subst x.
  change (FromXYZ_loop 1 y 1) with (String (digit_of 1 y 1) EmptyString) in Hk.
  injection Hk as Hk.
  destruct (digit_of_xset 1 y 1 ltac:(discriminate)) as [E|E];
    rewrite E in Hk; discriminate.
Qed.

(** C6 fails on the code.  The claim: for every valid key [k] of zoom z,
    KeysInBound(Bound(k), z) yields no key other than [k].  The code, at
    the key "01" (x = 1, y = 0, z = 2): whenever the enumeration returns,
    it contains a key of column 2, which is not "01". *)
Theorem C6_bound_of_01_has_extra_key (l : list QuadKey) :
  KeysInBound Log Tan Cos (Bound Atan Sinh "01"%string) (Z_ "01"%string) = Some l ->
  exists k, In k l /\ k <> "01"%string.
Proof.
  change (Z_ "01"%string) with 2.
  intros H. destruct (columns_01 l H) as (c & d & ->).
  exists (FromXYZ_loop 2 (Z.min c d) 2). split.
  - apply in_tiles. exists 2, (Z.min c d). repeat split; lia.
  - change (FromXYZ_loop 2 (Z.min c d) 2)
      with (String (digit_of 2 (Z.min c d) 2)
                   (String (digit_of 2 (Z.min c d) 1) EmptyString)).
    intros Hk. injection Hk as Hk _.
    destruct (digit_of_xset 2 (Z.min c d) 2 ltac:(discriminate)) as [E|E];
      rewrite E in Hk; discriminate.
Qed.

(** C9. Bound fails closed: for every invalid key (empty or with a
    character outside '0'..'3'), Bound returns the zero-valued rectangle. *)
Theorem C9_bound_invalid (k : QuadKey) :
  valid_key k = false -> Bound Atan Sinh k = orb.zero_Bound.
Proof.
  intros H. unfold Bound.
  destruct (Valid k) eqn:E; [reflexivity|].
  apply Valid_valid_key in E. congruence.
Qed.

(** C10. Zoom 0 at the public interface: FromXYZ(x, y, 0) is the empty
    string for all integers x and y, and so is FromLonLat(lon, lat, 0) for
    every longitude and latitude; the empty string is rejected by Valid and
    decoded to the sentinel (-1,-1,-1) by XYZ. *)
Theorem C10_zoom0 (x y : Z) (lon lat : float) :
  FromXYZ x y 0 = Some EmptyString
  /\ FromLonLat Log Tan Cos lon lat 0 = Some EmptyString
  /\ Valid EmptyString = Some ErrEmpty
  /\ XYZ EmptyString = (-1, -1, -1).
Proof.
  split; [reflexivity|]. split; [|split; reflexivity].
  unfold FromLonLat. destruct (normalize lon lat) as [lon' lat'].
  reflexivity.
Qed.

End MercatorFacts.

Lemma C7_bound_of_0_misses_0_witness :
  KeysInBound id_fn id_fn id_fn (Bound id_fn id_fn "0"%string) (Z_ "0"%string)
  = Some ["1"%string]
  /\ ~ In "0"%string ["1"%string].
Proof.
  split; [vm_compute; reflexivity|].
  apply (C7_bound_of_0_misses_0 id_fn id_fn id_fn id_fn id_fn).
  vm_compute; reflexivity.
Defined.

Lemma C6_bound_of_01_has_extra_key_witness :
  KeysInBound id_fn id_fn id_fn (Bound id_fn id_fn "01"%string) (Z_ "01"%string)
  = Some ["01"%string; "10"%string]
  /\ exists k, In k ["01"%string; "10"%string] /\ k <> "01"%string.
Proof.
  split; [vm_compute; reflexivity|].
  apply (C6_bound_of_01_has_extra_key id_fn id_fn id_fn id_fn id_fn).
  vm_compute; reflexivity.
Defined.

Lemma C9_bound_invalid_witness :
  valid_key "01a3" = false /\ Bound id_fn id_fn "01a3"%string = orb.zero_Bound.
Proof.
  split; [reflexivity|]. apply (C9_bound_invalid id_fn id_fn). reflexivity.
Defined.

(** ** Comparisons of binary64 *)

Lemma SFcompare_swap (a b : spec_float) :
  SFcompare b a = option_map CompOpp (SFcompare a b).
Proof.
  destruct a as [sa|sa| |sa ma ea], b as [sb|sb| |sb mb eb];
    try reflexivity;
    try (destruct sa; reflexivity); try (destruct sb; reflexivity);
    try (destruct sa, sb; reflexivity).
  cbn [SFcompare option_map].
  destruct sa, sb; try reflexivity;
    rewrite (Z.compare_antisym ea eb);
    destruct (ea ?= eb)%Z eqn:E; cbn [CompOpp]; try reflexivity;
    now rewrite (Pos.compare_cont_antisym ma mb Eq).
Qed.

Lemma float_leb_not_ltb (a b : float) :
  (a <=? b)%float = true -> (b <? a)%float = false.
Proof.
  rewrite FloatAxioms.leb_spec, FloatAxioms.ltb_spec. unfold SFleb, SFltb.
  rewrite (SFcompare_swap (Prim2SF a) (Prim2SF b)).
  destruct (SFcompare (Prim2SF a) (Prim2SF b)) as [[| |]|]; cbn; congruence.
Qed.

Lemma Prim2SF_not_nan (a : float) : is_nan a = false -> Prim2SF a <> S754_nan.
Proof.
  unfold is_nan. rewrite FloatAxioms.eqb_spec. intros H E. rewrite E in H. discriminate.
Qed.

Lemma float_not_ltb_leb (a b : float) :
  is_nan a = false -> is_nan b = false ->
  (b <? a)%float = false -> (a <=? b)%float = true.
Proof.
  intros Ha Hb. apply Prim2SF_not_nan in Ha, Hb.
  rewrite FloatAxioms.leb_spec, FloatAxioms.ltb_spec. unfold SFleb, SFltb.
  rewrite (SFcompare_swap (Prim2SF a) (Prim2SF b)).
  destruct (Prim2SF a) as [sa|sa| |sa ma ea], (Prim2SF b) as [sb|sb| |sb mb eb];
    try congruence;
    match goal with
    | |- context [SFcompare ?x ?y] => destruct (SFcompare x y) as [[| |]|] eqn:E
    end; cbn; try congruence; discriminate.
Qed.

(** ** Canonical binary64 numbers *)

Lemma digits2_log2 (m : positive) :
  Z.pos (digits2_pos m) = Z.log2 (Z.pos m) + 1.
Proof.
  assert (H : forall p, digits2_pos p = Pos.size p)
    by (induction p; cbn; congruence).
  destruct m as [p|p|]; cbn [digits2_pos Z.log2]; rewrite ?H; lia.
Qed.

Lemma digits2_bounds (m : positive) :
  2 ^ (Z.pos (digits2_pos m) - 1) <= Z.pos m < 2 ^ Z.pos (digits2_pos m).
Proof.
  rewrite digits2_log2.
  pose proof (Z.log2_spec (Z.pos m) ltac:(lia)) as H.
  replace (Z.log2 (Z.pos m) + 1 - 1) with (Z.log2 (Z.pos m)) by lia.
  replace (Z.log2 (Z.pos m) + 1) with (Z.succ (Z.log2 (Z.pos m))) by lia.
  exact H.
Qed.

Lemma digits2_unique (m : positive) (d : Z) :
  2 ^ (d - 1) <= Z.pos m < 2 ^ d -> Z.pos (digits2_pos m) = d.
Proof.
  intros H. rewrite digits2_log2.
  assert (0 < d).
  { destruct (Z.lt_ge_cases 0 d); [assumption|].
    assert (2 ^ d <= 2 ^ 0) by (apply Z.pow_le_mono_r; lia). cbn in *. lia. }
  rewrite (Z.log2_unique (Z.pos m) (d - 1)); [lia|lia|].
  replace (Z.succ (d - 1)) with d by lia. exact H.
Qed.

Lemma iter_xO (m k : positive) :
  Z.pos (Pos.iter xO m k) = Z.pos m * 2 ^ Z.pos k.
Proof.
  revert m. induction k using Pos.peano_ind; intros m.
  - cbn. lia.
  - rewrite Pos.iter_succ, Pos2Z.inj_xO, IHk, Pos2Z.inj_succ, Z.pow_succ_r by lia.
    lia.
Qed.

Lemma digits2_shift (m k : positive) :
  Z.pos (digits2_pos (Pos.iter xO m k)) = Z.pos (digits2_pos m) + Z.pos k.
Proof.
  apply digits2_unique. rewrite iter_xO.
  pose proof (digits2_bounds m) as [Hl Hu].
  replace (Z.pos (digits2_pos m) + Z.pos k - 1)
    with (Z.pos (digits2_pos m) - 1 + Z.pos k) by lia.
  rewrite !Z.pow_add_r by lia.
  pose proof (Z.pow_pos_nonneg 2 (Z.pos k) ltac:(lia) ltac:(lia)).
  split; [apply Z.mul_le_mono_nonneg_r; lia|apply Z.mul_lt_mono_pos_r; lia].
Qed.

(** Rounding is exact on a number that fits the format: at most 53 digits,
    at an exponent the format has. *)
Lemma binary_round_exact (s : bool) (m : positive) (e : Z) :
  Z.pos (digits2_pos m) <= 53 -> -1074 <= e <= 971 ->
  exists m' e',
    binary_round prec emax s m e = S754_finite s m' e'
    /\ fval m' e' = fval m e
    /\ canonical_mantissa prec emax m' e' = true
    /\ -1074 <= e' <= e.
Proof.
  intros Hd He. unfold binary_round.
  set (t := fexp prec emax (Z.pos (digits2_pos m) + e)).
  assert (Ht : t = Z.max (Z.pos (digits2_pos m) + e - 53) (-1074)) by reflexivity.
  assert (Hte : -1074 <= t <= e) by lia.
  assert (Hsh : exists m', shl_align m e t = (m', t)
                           /\ Z.pos m' = Z.pos m * 2 ^ (e - t)
                           /\ Z.pos (digits2_pos m') = Z.pos (digits2_pos m) + (e - t)).
  { unfold shl_align. destruct (t - e) as [|p|p] eqn:E; try lia.
    - exists m. replace (e - t) with 0 by lia. replace t with e by lia.
      split; [reflexivity|]. cbn. lia.
    - exists (Pos.iter xO m p). replace (e - t) with (Z.pos p) by lia.
      split; [reflexivity|]. split; [apply iter_xO|apply digits2_shift]. }
  destruct Hsh as (m' & -> & Hm' & Hd').
  assert (Hcan : fexp prec emax (Z.pos (digits2_pos m') + t) = t).
  { rewrite Hd'. replace (Z.pos (digits2_pos m) + (e - t) + t)
      with (Z.pos (digits2_pos m) + e) by lia. reflexivity. }
  exists m', t.
  split; [|split; [|split]].
  - unfold binary_round_aux, shr_fexp. cbn [Zdigits2 shr_record_of_loc].
    rewrite Hcan, Z.sub_diag. cbn [shr shr_m loc_of_shr_record round_nearest_even].
    cbn [Zdigits2]. rewrite Hcan, Z.sub_diag. cbn [shr shr_m].
    destruct (Z.leb_spec t (emax - prec)); [reflexivity|].
    change (emax - prec) with 971 in *. lia.
  - unfold fval. rewrite Hm', <- Z.mul_assoc, <- Z.pow_add_r by lia.
    do 2 f_equal. lia.
  - unfold canonical_mantissa. rewrite Hcan. apply Z.eqb_refl.
  - assumption.
Qed.

Lemma canonical_digits (m : positive) (e : Z) :
  canonical_mantissa prec emax m e = true ->
  Z.pos (digits2_pos m) <= 53 /\ -1074 <= e
  /\ (-1074 < e -> Z.pos (digits2_pos m) = 53).
Proof.
  unfold canonical_mantissa. intros H. apply Z.eqb_eq in H.
  assert (H' : Z.max (Z.pos (digits2_pos m) + e - 53) (-1074) = e) by exact H.
  lia.
Qed.

Lemma digits2_le (m : positive) (n : Z) :
  Z.pos m < 2 ^ n -> Z.pos (digits2_pos m) <= n.
Proof.
  intros H. pose proof (digits2_bounds m) as [Hl _].
  destruct (Z.le_gt_cases (Z.pos (digits2_pos m)) n) as [|Hgt]; [assumption|].
  assert (2 ^ n <= 2 ^ (Z.pos (digits2_pos m) - 1))
    by (apply Z.pow_le_mono_r; lia).
  lia.
Qed.

Lemma fval_pos (m : positive) (e : Z) : -1074 <= e -> 0 < fval m e.
Proof.
  intros H. unfold fval.
  pose proof (Z.pow_pos_nonneg 2 (e + 1074) ltac:(lia) ltac:(lia)). lia.
Qed.

(** Among canonical numbers a larger exponent means a larger value. *)
Lemma fval_exponent_lt (m1 m2 : positive) (e1 e2 : Z) :
  canonical_mantissa prec emax m1 e1 = true ->
  canonical_mantissa prec emax m2 e2 = true ->
  e1 < e2 -> fval m1 e1 < fval m2 e2.
Proof.
  intros H1 H2 Hlt.
  apply canonical_digits in H1, H2.
  destruct H1 as (Hd1 & He1 & _), H2 as (_ & _ & Hd2).
  pose proof (digits2_bounds m1) as [_ Hu].
  pose proof (digits2_bounds m2) as [Hl _].
  rewrite Hd2 in Hl by lia.
  assert (Hm1 : Z.pos m1 < 2 ^ 53).
  { apply Z.lt_le_trans with (2 ^ Z.pos (digits2_pos m1)); [assumption|].
    apply Z.pow_le_mono_r; lia. }
  unfold fval.
  apply Z.lt_le_trans with (2 ^ 53 * 2 ^ (e1 + 1074)).
  - apply Z.mul_lt_mono_pos_r; [apply Z.pow_pos_nonneg; lia|assumption].
  - apply Z.le_trans with (2 ^ (53 - 1) * 2 ^ (e2 + 1074)).
    + rewrite <- !Z.pow_add_r by lia. apply Z.pow_le_mono_r; lia.
    + apply Z.mul_le_mono_nonneg_r; [apply Z.pow_nonneg; lia|assumption].
Qed.

(** The comparison of two positive canonical numbers is that of their
    values. *)
Lemma SFcompare_pos (m1 m2 : positive) (e1 e2 : Z) :
  canonical_mantissa prec emax m1 e1 = true ->
  canonical_mantissa prec emax m2 e2 = true ->
  SFcompare (S754_finite false m1 e1) (S754_finite false m2 e2)
  = Some (fval m1 e1 ?= fval m2 e2).
Proof.
  intros H1 H2. cbn [SFcompare]. f_equal.
  destruct (Z.compare_spec e1 e2) as [->|Hlt|Hgt].
  - unfold fval. rewrite <- Zmult_compare_compat_r; [reflexivity|].
    apply Z.lt_gt, Z.pow_pos_nonneg; [lia|apply canonical_digits in H2; lia].
  - symmetry. apply Z.compare_lt_iff. now apply fval_exponent_lt.
  - symmetry. apply Z.compare_gt_iff. now apply fval_exponent_lt.
Qed.

Lemma SFcompare_neg (m1 m2 : positive) (e1 e2 : Z) :
  canonical_mantissa prec emax m1 e1 = true ->
  canonical_mantissa prec emax m2 e2 = true ->
  SFcompare (S754_finite true m1 e1) (S754_finite true m2 e2)
  = Some (fval m2 e2 ?= fval m1 e1).
Proof.
  intros H1 H2.
  rewrite <- (SFcompare_pos m2 m1 e2 e1 H2 H1).
  cbn [SFcompare]. f_equal.
  rewrite (Z.compare_antisym e1 e2).
  destruct (e1 ?= e2); cbn [CompOpp]; try reflexivity.
  now rewrite (Pos.compare_cont_antisym m1 m2 Eq).
Qed.

Lemma shl_align_fst (m : positive) (e ez : Z) :
  ez <= e -> Z.pos (fst (shl_align m e ez)) = Z.pos m * 2 ^ (e - ez).
Proof.
  intros H. unfold shl_align.
  destruct (ez - e) as [|p|p] eqn:E; try lia; cbn [fst].
  - replace (e - ez) with 0 by lia. cbn. lia.
  - replace (e - ez) with (Z.pos p) by lia. apply iter_xO.
Qed.

(** The difference of two numbers of the format, when it has at most 53
    digits at the smaller exponent, is computed exactly. *)
Lemma normalize_diff (neg : bool) (ma mb : positive) (ea eb : Z) :
  -1074 <= ea <= 971 -> -1074 <= eb <= 971 ->
  fval ma ea < fval mb eb ->
  fval mb eb - fval ma ea < 2 ^ 53 * 2 ^ (Z.min ea eb + 1074) ->
  exists m' e',
    binary_normalize prec emax
      (if neg
       then Z.pos (fst (shl_align ma ea (Z.min ea eb)))
            - Z.pos (fst (shl_align mb eb (Z.min ea eb)))
       else - Z.pos (fst (shl_align ma ea (Z.min ea eb)))
            + Z.pos (fst (shl_align mb eb (Z.min ea eb))))
      (Z.min ea eb) false
    = S754_finite neg m' e'
    /\ fval m' e' = fval mb eb - fval ma ea
    /\ canonical_mantissa prec emax m' e' = true
    /\ -1074 <= e' <= 971.
Proof.
  intros Ha Hb Hlt Hsmall.
  set (ez := Z.min ea eb) in *.
  rewrite !shl_align_fst by lia.
  set (A := Z.pos ma * 2 ^ (ea - ez)). set (B := Z.pos mb * 2 ^ (eb - ez)).
  assert (HP : 0 < 2 ^ (ez + 1074)) by (apply Z.pow_pos_nonneg; lia).
  assert (HA : fval ma ea = A * 2 ^ (ez + 1074)).
  { unfold fval, A. rewrite <- Z.mul_assoc, <- Z.pow_add_r by lia.
    do 2 f_equal. lia. }
  assert (HB : fval mb eb = B * 2 ^ (ez + 1074)).
  { unfold fval, B. rewrite <- Z.mul_assoc, <- Z.pow_add_r by lia.
    do 2 f_equal. lia. }
  rewrite HA, HB in Hlt, Hsmall |- *.
  assert (HD : 0 < B - A < 2 ^ 53) by nia.
  destruct (B - A) as [|d|d] eqn:ED; try lia.
  assert (Hd : Z.pos (digits2_pos d) <= 53) by (apply digits2_le; lia).
  destruct (binary_round_exact neg d ez Hd ltac:(lia)) as (m' & e' & Hr & Hv & Hc & He).
  exists m', e'.
  split; [|split; [|split]]; try assumption; try lia.
  - destruct neg.
    + replace (A - B) with (Z.neg d) by lia. exact Hr.
    + replace (- A + B) with (Z.pos d) by lia. exact Hr.
  - rewrite Hv. unfold fval. lia.
Qed.

(** ** math.Mod by 360 and the longitude of normalize, on binary64 *)

Lemma fval_360 : fval m180 (-44) = 2 * K.
Proof. reflexivity. Qed.

Lemma canonical_m180 (e : Z) :
  -1074 < e -> canonical_mantissa prec emax m180 e = true.
Proof.
  intros H. unfold canonical_mantissa, fexp. change (digits2_pos m180) with 53%positive.
  apply Z.eqb_eq. change (SpecFloat.emin prec emax) with (-1074). change prec with 53. lia.
Qed.

Lemma finite_cases (x : float) :
  is_finite x = true ->
  (exists s, Prim2SF x = S754_zero s) \/ (exists s m e, Prim2SF x = S754_finite s m e).
Proof.
  unfold is_finite, is_nan, is_infinity.
  rewrite !FloatAxioms.eqb_spec, abs_spec. intros H.
  destruct (Prim2SF x) as [s|s| |s m e]; eauto.
  - destruct s; discriminate.
  - discriminate.
Qed.

Lemma Prim2SF_canonical (x : float) (s : bool) (m : positive) (e : Z) :
  Prim2SF x = S754_finite s m e ->
  canonical_mantissa prec emax m e = true /\ -1074 <= e <= 971.
Proof.
  intros E. pose proof (Prim2SF_valid x) as H. rewrite E in H.
  cbn [valid_binary] in H. unfold bounded in H.
  apply andb_true_iff in H. destruct H as [Hc He].
  split; [assumption|]. apply Z.leb_le in He. change (emax - prec) with 971 in He.
  apply canonical_digits in Hc. lia.
Qed.

Lemma Prim2SF_finite (s : bool) (m : positive) (e : Z) :
  canonical_mantissa prec emax m e = true -> e <= 971 ->
  Prim2SF (SF2Prim (S754_finite s m e)) = S754_finite s m e.
Proof.
  intros Hc He. apply Prim2SF_SF2Prim. cbn [valid_binary]. unfold bounded.
  rewrite Hc. apply Z.leb_le. exact He.
Qed.

(** The remainder by 360 of a finite number is a zero, or a number of the
    sign of the dividend and of magnitude below 360. *)
Lemma Mod_360_finite (x : float) (s : bool) (m : positive) (e : Z) :
  Prim2SF x = S754_finite s m e ->
  Prim2SF (GoMath.Mod x 360) = S754_zero s
  \/ exists m' e',
       Prim2SF (GoMath.Mod x 360) = S754_finite s m' e'
       /\ canonical_mantissa prec emax m' e' = true
       /\ -1074 <= e' <= 971
       /\ fval m' e' < 2 * K.
Proof.
  intros E. destruct (Prim2SF_canonical x s m e E) as [Hc He].
  unfold GoMath.Mod. rewrite E.
  change (Prim2SF 360) with (S754_finite false m180 (-44)).
  cbv beta iota zeta.
  set (e0 := Z.min e (-44)).
  set (X := Z.pos m * 2 ^ (e - e0)). set (Y := Z.pos m180 * 2 ^ (-44 - e0)).
  assert (HY : 0 < Y)
    by (unfold Y; pose proof (Z.pow_pos_nonneg 2 (-44 - e0) ltac:(lia) ltac:(lia)); lia).
  assert (HX : 0 < X)
    by (unfold X; pose proof (Z.pow_pos_nonneg 2 (e - e0) ltac:(lia) ltac:(lia)); lia).
  pose proof (Z.mod_pos_bound X Y HY) as HR.
  destruct (X mod Y) as [|p|p] eqn:ER; [| |lia].
  - left. cbn [binary_normalize SF2Prim].
    destruct s; reflexivity.
  - right. cbn [binary_normalize].
    assert (Hp : Z.pos p < 2 ^ 53).
    { destruct (Z.le_gt_cases e (-44)).
      - assert (X = Z.pos m) by (unfold X; replace (e - e0) with 0 by lia; lia).
        pose proof (Z.mod_le X Y ltac:(lia) HY).
        pose proof (digits2_bounds m) as [_ Hu].
        apply canonical_digits in Hc.
        assert (2 ^ Z.pos (digits2_pos m) <= 2 ^ 53) by (apply Z.pow_le_mono_r; lia).
        lia.
      - assert (Y = Z.pos m180) by (unfold Y; replace (-44 - e0) with 0 by lia; lia).
        assert (Z.pos m180 < 2 ^ 53) by reflexivity. lia. }
    destruct (binary_round_exact false p e0 (digits2_le p 53 Hp) ltac:(lia))
      as (m' & e' & Hr & Hv & Hc' & He').
    rewrite Hr. exists m', e'.
    assert (Hprim : Prim2SF (SF2Prim (S754_finite false m' e')) = S754_finite false m' e')
      by (apply Prim2SF_finite; [assumption|lia]).
    split; [|split; [assumption|split; [lia|]]].
    + destruct s; [|exact Hprim].
      rewrite opp_spec, Hprim. reflexivity.
    + rewrite Hv, <- fval_360. unfold fval.
      assert (Z.pos p < Y) by lia.
      assert (HP : 0 < 2 ^ (e0 + 1074)) by (apply Z.pow_pos_nonneg; lia).
      apply Z.lt_le_trans with (Y * 2 ^ (e0 + 1074)); [nia|].
      unfold Y. rewrite <- Z.mul_assoc, <- Z.pow_add_r by lia.
      replace (-44 - e0 + (e0 + 1074)) with (-44 + 1074) by lia. lia.
Qed.

Lemma Mod_360_zero (x : float) (s : bool) :
  Prim2SF x = S754_zero s -> GoMath.Mod x 360 = x.
Proof.
  intros E. unfold GoMath.Mod. rewrite E.
  change (Prim2SF 360) with (S754_finite false m180 (-44)). reflexivity.
Qed.

Lemma SFltb_pos (m1 m2 : positive) (e1 e2 : Z) :
  canonical_mantissa prec emax m1 e1 = true ->
  canonical_mantissa prec emax m2 e2 = true ->
  SFltb (S754_finite false m1 e1) (S754_finite false m2 e2)
  = (fval m1 e1 <? fval m2 e2).
Proof.
  intros H1 H2. unfold SFltb, Z.ltb. rewrite SFcompare_pos by assumption.
  destruct (fval m1 e1 ?= fval m2 e2); reflexivity.
Qed.

Lemma SFleb_pos (m1 m2 : positive) (e1 e2 : Z) :
  canonical_mantissa prec emax m1 e1 = true ->
  canonical_mantissa prec emax m2 e2 = true ->
  SFleb (S754_finite false m1 e1) (S754_finite false m2 e2)
  = (fval m1 e1 <=? fval m2 e2).
Proof.
  intros H1 H2. unfold SFleb, Z.leb. rewrite SFcompare_pos by assumption.
  destruct (fval m1 e1 ?= fval m2 e2); reflexivity.
Qed.

Lemma SFltb_neg (m1 m2 : positive) (e1 e2 : Z) :
  canonical_mantissa prec emax m1 e1 = true ->
  canonical_mantissa prec emax m2 e2 = true ->
  SFltb (S754_finite true m1 e1) (S754_finite true m2 e2)
  = (fval m2 e2 <? fval m1 e1).
Proof.
  intros H1 H2. unfold SFltb, Z.ltb. rewrite SFcompare_neg by assumption.
  destruct (fval m2 e2 ?= fval m1 e1); reflexivity.
Qed.

Lemma SFleb_neg (m1 m2 : positive) (e1 e2 : Z) :
  canonical_mantissa prec emax m1 e1 = true ->
  canonical_mantissa prec emax m2 e2 = true ->
  SFleb (S754_finite true m1 e1) (S754_finite true m2 e2)
  = (fval m2 e2 <=? fval m1 e1).
Proof.
  intros H1 H2. unfold SFleb, Z.leb. rewrite SFcompare_neg by assumption.
  destruct (fval m2 e2 ?= fval m1 e1); reflexivity.
Qed.

(** A canonical number of magnitude at least 180 has exponent at least
    -45. *)
Lemma exponent_of_large (m : positive) (e : Z) :
  canonical_mantissa prec emax m e = true -> K <= fval m e -> -45 <= e.
Proof.
  intros Hc Hv. destruct (Z.le_gt_cases (-45) e) as [|Hlt]; [assumption|].
  pose proof (fval_exponent_lt m m180 e (-45) Hc (canonical_m180 (-45) ltac:(lia))
                ltac:(lia)) as H.
  fold K in H. lia.
Qed.

Lemma K_small (ez : Z) : -45 <= ez -> K < 2 ^ 53 * 2 ^ (ez + 1074).
Proof.
  intros H. apply Z.lt_le_trans with (2 ^ 53 * 2 ^ (-45 + 1074)); [reflexivity|].
  apply Z.mul_le_mono_nonneg_l; [lia|]. apply Z.pow_le_mono_r; lia.
Qed.

(** The longitude that [normalize] returns on binary64, for every finite
    longitude: above -180 and at most 180. *)
Lemma normalize_lon_range (lon lat : float) :
  is_finite lon = true ->
  (-180 <? fst (normalize lon lat))%float = true
  /\ (fst (normalize lon lat) <=? 180)%float = true.
Proof.
  intros Hfin.
  change (fst (normalize lon lat))
    with (if (GoMath.Mod lon 360 <=? -180)%float then (GoMath.Mod lon 360 + 360)%float
          else if (180 <? GoMath.Mod lon 360)%float then (GoMath.Mod lon 360 - 360)%float
          else GoMath.Mod lon 360).
  assert (H180 : Prim2SF 180 = S754_finite false m180 (-45)) by reflexivity.
  assert (Hn180 : Prim2SF (-180) = S754_finite true m180 (-45)) by reflexivity.
  assert (H360 : Prim2SF 360 = S754_finite false m180 (-44)) by reflexivity.
  pose proof (canonical_m180 (-45) ltac:(lia)) as Hc180.
  pose proof (canonical_m180 (-44) ltac:(lia)) as Hc360.
  assert (Hzero : forall s, Prim2SF (GoMath.Mod lon 360) = S754_zero s ->
            (-180 <? (if (GoMath.Mod lon 360 <=? -180)%float then (GoMath.Mod lon 360 + 360)%float
          else if (180 <? GoMath.Mod lon 360)%float then (GoMath.Mod lon 360 - 360)%float
          else GoMath.Mod lon 360))%float = true
  /\ ((if (GoMath.Mod lon 360 <=? -180)%float then (GoMath.Mod lon 360 + 360)%float
          else if (180 <? GoMath.Mod lon 360)%float then (GoMath.Mod lon 360 - 360)%float
          else GoMath.Mod lon 360) <=? 180)%float = true).
  { intros s Hr. generalize dependent (GoMath.Mod lon 360). intros r Hr.
    rewrite (FloatAxioms.leb_spec r), (FloatAxioms.ltb_spec 180 r), Hr, H180, Hn180.
    cbn [SFleb SFltb SFcompare].
    rewrite FloatAxioms.ltb_spec, FloatAxioms.leb_spec, Hr, H180, Hn180.
    split; reflexivity. }
  destruct (finite_cases lon Hfin) as [(s & E)|(s & m & e & E)].
  { apply (Hzero s). now rewrite (Mod_360_zero lon s E). }
  destruct (Mod_360_finite lon s m e E) as [Hr|(m' & e' & Hr & Hc & He & Hv)].
  { now apply (Hzero s). }
  clear Hzero.
  generalize dependent (GoMath.Mod lon 360). intros r Hr.
  pose proof (fval_pos m' e' ltac:(lia)) as Hpos.
  rewrite (FloatAxioms.leb_spec r), (FloatAxioms.ltb_spec 180 r), Hr, H180, Hn180.
  destruct s.
  - (* a negative remainder *)
    rewrite SFleb_neg by assumption. fold K.
    destruct (Z.leb_spec K (fval m' e')) as [Hge|Hlt].
    + pose proof (exponent_of_large m' e' Hc Hge) as He45.
      destruct (normalize_diff false m' m180 e' (-44) ltac:(lia) ltac:(lia)) as
        (m2 & e2 & Hn & Hv2 & Hc2 & He2).
      * rewrite fval_360. lia.
      * rewrite fval_360.
        pose proof (K_small (Z.min e' (-44)) ltac:(lia)). lia.
      * rewrite FloatAxioms.ltb_spec, FloatAxioms.leb_spec, add_spec, Hr, H360, H180, Hn180.
        unfold SF64add. cbn [SFadd cond_Zopp]. cbv zeta. rewrite Hn.
        split; [reflexivity|].
        rewrite SFleb_pos by assumption. fold K. rewrite Hv2, fval_360.
        apply Z.leb_le. lia.
    + cbn [SFltb SFcompare].
      rewrite FloatAxioms.ltb_spec, FloatAxioms.leb_spec, Hr, H180, Hn180.
      split; [|reflexivity].
      rewrite SFltb_neg by assumption. fold K. apply Z.ltb_lt. lia.
  - (* a positive remainder *)
    cbn [SFleb SFcompare].
    rewrite SFltb_pos by assumption. fold K.
    destruct (Z.ltb_spec K (fval m' e')) as [Hgt|Hle].
    + pose proof (exponent_of_large m' e' Hc ltac:(lia)) as He45.
      destruct (normalize_diff true m' m180 e' (-44) ltac:(lia) ltac:(lia)) as
        (m2 & e2 & Hn & Hv2 & Hc2 & He2).
      * rewrite fval_360. lia.
      * rewrite fval_360.
        pose proof (K_small (Z.min e' (-44)) ltac:(lia)). lia.
      * rewrite FloatAxioms.ltb_spec, FloatAxioms.leb_spec, sub_spec, Hr, H360, H180, Hn180.
        unfold SF64sub. cbn [SFsub cond_Zopp]. cbv zeta. rewrite Hn.
        split; [|reflexivity].
        rewrite SFltb_neg by assumption. fold K. rewrite Hv2, fval_360.
        apply Z.ltb_lt. lia.
    + rewrite FloatAxioms.ltb_spec, FloatAxioms.leb_spec, Hr, H180, Hn180.
      split; [reflexivity|].
      rewrite SFleb_pos by assumption. fold K. apply Z.leb_le. lia.
Qed.

(** The latitude that [normalize] returns, for every latitude that is a
    number. *)
Lemma normalize_lat (lon lat : float) :
  is_nan lat = false ->
  (- MERCATOR_MAX_LAT <=? snd (normalize lon lat))%float = true
  /\ (snd (normalize lon lat) <=? MERCATOR_MAX_LAT)%float = true
  /\ ((- MERCATOR_MAX_LAT <=? lat)%float = true ->
      (lat <=? MERCATOR_MAX_LAT)%float = true ->
      snd (normalize lon lat) = lat).
Proof.
  intros Hnan. unfold normalize. cbn [snd].
  destruct (MERCATOR_MAX_LAT <? lat)%float eqn:E1.
  - split; [reflexivity|]. split; [reflexivity|].
    intros _ H. apply float_leb_not_ltb in H. congruence.
  - destruct (lat <? - MERCATOR_MAX_LAT)%float eqn:E2.
    + split; [reflexivity|]. split; [reflexivity|].
      intros H _. apply float_leb_not_ltb in H. congruence.
    + split; [|split; [|reflexivity]].
      * apply float_not_ltb_leb; [reflexivity|assumption|assumption].
      * apply float_not_ltb_leb; [assumption|reflexivity|assumption].
Qed.

(** [MERCATOR_MAX_LAT] is the binary64 just below 85.05112878, and the
    next binary64 is above it: a binary64 lies in [-85.05112878,
    85.05112878] exactly when it lies between [- MERCATOR_MAX_LAT] and
    [MERCATOR_MAX_LAT]. *)
Lemma MERCATOR_MAX_LAT_nearest :
  Prim2SF MERCATOR_MAX_LAT = S754_finite false 5984941123141376 (-46)
  /\ 5984941123141376 * 100000000 < 8505112878 * 2 ^ 46
     < (5984941123141376 + 1) * 100000000.
Proof. split; [reflexivity|]. split; reflexivity. Qed.

Lemma normalize_180 (lat : float) : fst (normalize 180 lat) = 180%float.
Proof. reflexivity. Qed.

Lemma is_finite_not_nan (x : float) : is_finite x = true -> is_nan x = false.
Proof.
  unfold is_finite. intros H. apply negb_true_iff, orb_false_iff in H. tauto.
Qed.

(** C8. Normalization: for every finite longitude [lon] and finite latitude
    [lat], normalize(lon, lat) returns a longitude in the half-open
    interval (-180, 180] (and normalize(180, lat) returns longitude exactly
    180, never -180), and a latitude that lies in
    [-85.05112878, 85.05112878] and equals [lat] whenever [lat] already
    lies in that interval. *)
Theorem C8_normalize (lon lat : float) :
  is_finite lon = true -> is_finite lat = true ->
  ((-180 <? fst (normalize lon lat)) = true
   /\ (fst (normalize lon lat) <=? 180) = true
   /\ fst (normalize 180 lat) = 180
   /\ (- MERCATOR_MAX_LAT <=? snd (normalize lon lat)) = true
   /\ (snd (normalize lon lat) <=? MERCATOR_MAX_LAT) = true
   /\ ((- MERCATOR_MAX_LAT <=? lat) = true -> (lat <=? MERCATOR_MAX_LAT) = true ->
       snd (normalize lon lat) = lat))%float.
Proof.
  intros Hlon Hlat.
  destruct (normalize_lon_range lon lat Hlon) as [H1 H2].
  destruct (normalize_lat lon lat (is_finite_not_nan lat Hlat)) as (H3 & H4 & H5).
  exact (conj H1 (conj H2 (conj (normalize_180 lat) (conj H3 (conj H4 H5))))).
Qed.

Lemma C8_normalize_witness :
  (is_finite 540 = true /\ is_finite 35 = true
   /\ (- MERCATOR_MAX_LAT <=? 35) = true /\ (35 <=? MERCATOR_MAX_LAT) = true
   /\ (-180 <? fst (normalize 540 35)) = true
   /\ (fst (normalize 540 35) <=? 180) = true
   /\ snd (normalize 540 35) = 35)%float.
Proof.
  destruct (C8_normalize 540 35 eq_refl eq_refl) as (H1 & H2 & _ & _ & _ & H3).
  split; [reflexivity|]. split; [reflexivity|].
  split; [reflexivity|]. split; [reflexivity|].
  split; [exact H1|]. split; [exact H2|].
  apply H3; reflexivity.
Defined.

(* ================================================================= *)
(** * Further results *)

(** ** Keys built by FromXYZ *)

Lemma digit_of_is_quad (x y mask : Z) : is_quad (digit_of x y mask) = true.
Proof.
  unfold digit_of.
  destruct (Z.land x mask =? 0), (Z.land y mask =? 0); reflexivity.
Qed.

Lemma all_quad_FromXYZ_loop (x y : Z) (n : nat) :
  all_quad (FromXYZ_loop x y n) = true.
Proof.
  induction n as [|n IH]; [reflexivity|].
  cbn [FromXYZ_loop all_quad]. now rewrite digit_of_is_quad, IH.
Qed.

Lemma length_FromXYZ_loop (x y : Z) (n : nat) :
  String.length (FromXYZ_loop x y n) = n.
Proof. induction n; cbn [FromXYZ_loop String.length]; congruence. Qed.

Lemma valid_key_FromXYZ_loop (x y : Z) (n : nat) :
  (1 <= n)%nat -> valid_key (FromXYZ_loop x y n) = true.
Proof.
  intros Hn. unfold valid_key. rewrite all_quad_FromXYZ_loop.
  destruct n; [lia|reflexivity].
Qed.

(** X1.  FromXYZ panics on a negative zoom; for a zoom from 0 to 64 and
    all coordinates, in the grid or not, it returns a key of exactly z
    digits, each one of '0'..'3'; from zoom 1 on this key passes Valid and
    FromKey returns it unchanged. *)
Theorem FromXYZ_well_formed (x y z : Z) :
  (z < 0 -> FromXYZ x y z = None)
  /\ (0 <= z <= 64 ->
      exists k, FromXYZ x y z = Some k /\ Z_ k = z /\ all_quad k = true
                /\ (1 <= z -> Valid k = None /\ FromKey k = (k, None))).
Proof.
  unfold FromXYZ. split; intros Hz.
  - destruct (Z.ltb_spec z 0); [reflexivity|lia].
  - destruct (Z.ltb_spec z 0); [lia|].
    exists (FromXYZ_loop x y (Z.to_nat z)).
    split; [reflexivity|]. split; [unfold Z_; rewrite length_FromXYZ_loop; lia|].
    split; [apply all_quad_FromXYZ_loop|].
    intros H1.
    assert (Hv : Valid (FromXYZ_loop x y (Z.to_nat z)) = None)
      by (apply Valid_valid_key, valid_key_FromXYZ_loop; lia).
    split; [exact Hv|]. unfold FromKey. now rewrite Hv.
Qed.

Lemma FromXYZ_well_formed_witness :
  (-1 < 0 /\ FromXYZ 5 7 (-1) = None)
  /\ (0 <= 3 <= 64 /\ 1 <= 3
      /\ exists k, FromXYZ (-5) 700 3 = Some k /\ Z_ k = 3 /\ all_quad k = true
                   /\ Valid k = None /\ FromKey k = (k, None)).
Proof.
  split.
  - split; [lia|]. apply (proj1 (FromXYZ_well_formed 5 7 (-1))). lia.
  - split; [lia|]. split; [lia|].
    destruct (proj2 (FromXYZ_well_formed (-5) 700 3) ltac:(lia))
      as (k & Hk & Hz & Hq & Hv).
    exists k. destruct (Hv ltac:(lia)) as [Hv1 Hv2]. auto.
Defined.

(** ** Round trips *)

(** What XYZ reads from a key that the loop of FromXYZ wrote: the
    coordinates modulo 2^n. *)
Lemma XYZ_FromXYZ_loop (x y : Z) (n : nat) :
  (1 <= n <= 63)%nat -> Int64.in_range x -> Int64.in_range y ->
  XYZ (FromXYZ_loop x y n) = (x mod 2 ^ Z.of_nat n, y mod 2 ^ Z.of_nat n, Z.of_nat n).
Proof.
  intros Hn Hx Hy.
  rewrite (FromXYZ_loop_enc x y n Hx Hy) by lia.
  rewrite XYZ_dec by first [apply valid_key_enc; lia | rewrite length_enc; lia].
  now rewrite dec_enc_x, dec_enc_y, length_enc.
Qed.

(** X2.  Decoding what FromXYZ encodes gives the coordinates reduced modulo
    the grid size: XYZ(FromXYZ(x, y, z)) = (x mod 2^z, y mod 2^z, z) for
    every zoom from 1 to 63 and all 64-bit x and y; coordinates outside
    the grid are not rejected, their high bits are dropped. *)
Theorem XYZ_FromXYZ_wraps (x y z : Z) :
  1 <= z <= 63 -> Int64.in_range x -> Int64.in_range y ->
  exists k, FromXYZ x y z = Some k /\ XYZ k = (x mod 2 ^ z, y mod 2 ^ z, z).
Proof.
  intros Hz Hx Hy. unfold FromXYZ.
  destruct (Z.ltb_spec z 0); [lia|].
  exists (FromXYZ_loop x y (Z.to_nat z)). split; [reflexivity|].
  rewrite XYZ_FromXYZ_loop by first [lia | assumption].
  now rewrite Z2Nat.id by lia.
Qed.

Lemma XYZ_FromXYZ_wraps_witness :
  1 <= 3 <= 63 /\ Int64.in_range (-5) /\ Int64.in_range 700
  /\ exists k, FromXYZ (-5) 700 3 = Some k /\ XYZ k = (3, 4, 3).
Proof.
  assert (H1 : 1 <= 3 <= 63) by lia.
  assert (H2 : Int64.in_range (-5)) by (unfold Int64.in_range, Int64.min_int, Int64.max_int; lia).
  assert (H3 : Int64.in_range 700) by (unfold Int64.in_range, Int64.min_int, Int64.max_int; lia).
  split; [exact H1|]. split; [exact H2|]. split; [exact H3|].
  exact (XYZ_FromXYZ_wraps (-5) 700 3 H1 H2 H3).
Defined.

(** Encoding the numbers that the digits of a key spell gives the key. *)
Lemma FromXYZ_dec (k : QuadKey) :
  valid_key k = true -> (String.length k <= 63)%nat ->
  FromXYZ (dec xbit k) (dec ybit k) (Z_ k) = Some k.
Proof.
  intros Hv Hlen.
  pose proof (dec_range xbit k) as Hx. pose proof (dec_range ybit k) as Hy.
  assert (Hp : 2 ^ Z.of_nat (String.length k) <= 2 ^ 63)
    by (apply Z.pow_le_mono_r; lia).
  unfold FromXYZ, Z_. destruct (Z.ltb_spec (Z.of_nat (String.length k)) 0); [lia|].
  rewrite Nat2Z.id.
  rewrite FromXYZ_loop_enc
    by (unfold Int64.in_range, Int64.min_int, Int64.max_int; lia).
  rewrite enc_dec; [reflexivity|]. apply valid_key_nonempty in Hv. tauto.
Qed.

(** X3.  Encoding what XYZ decodes gives the key back: for every valid key
    of at most 63 digits, XYZ returns coordinates inside the grid of its
    zoom, and FromXYZ of them is the key itself. *)
Theorem FromXYZ_XYZ (k : QuadKey) :
  valid_key k = true -> (String.length k <= 63)%nat ->
  exists x y z,
    XYZ k = (x, y, z) /\ z = Z_ k
    /\ 0 <= x < 2 ^ z /\ 0 <= y < 2 ^ z
    /\ FromXYZ x y z = Some k.
Proof.
  intros Hv Hlen.
  exists (dec xbit k), (dec ybit k), (Z_ k).
  split; [apply XYZ_dec; assumption|]. split; [reflexivity|].
  split; [apply dec_range|]. split; [apply dec_range|].
  now apply FromXYZ_dec.
Qed.

Lemma FromXYZ_XYZ_witness :
  valid_key "13300221" = true /\ (String.length "13300221" <= 63)%nat
  /\ exists x y z,
       XYZ "13300221"%string = (x, y, z) /\ z = Z_ "13300221"%string
       /\ 0 <= x < 2 ^ z /\ 0 <= y < 2 ^ z
       /\ FromXYZ x y z = Some "13300221"%string.
Proof.
  assert (H1 : valid_key "13300221" = true) by reflexivity.
  assert (H2 : (String.length "13300221" <= 63)%nat) by (cbn; lia).
  split; [exact H1|]. split; [exact H2|].
  exact (FromXYZ_XYZ "13300221"%string H1 H2).
Defined.

(** X4.  XYZ separates keys: two valid keys of at most 63 digits with the
    same (x, y, z) are the same key. *)
Theorem XYZ_injective (k1 k2 : QuadKey) :
  valid_key k1 = true -> valid_key k2 = true ->
  (String.length k1 <= 63)%nat -> (String.length k2 <= 63)%nat ->
  XYZ k1 = XYZ k2 -> k1 = k2.
Proof.
  intros Hv1 Hv2 Hl1 Hl2 E.
  pose proof (FromXYZ_dec k1 Hv1 Hl1) as F1.
  pose proof (FromXYZ_dec k2 Hv2 Hl2) as F2.
  rewrite (XYZ_dec k1 Hv1 Hl1), (XYZ_dec k2 Hv2 Hl2) in E.
  fold (Z_ k1) (Z_ k2) in E.
  apply pair_equal_spec in E. destruct E as [E Ez].
  apply pair_equal_spec in E. destruct E as [Ex Ey].
  rewrite Ex, Ey, Ez, F2 in F1. now injection F1.
Qed.

Lemma XYZ_injective_witness :
  valid_key "12" = true /\ (String.length "12" <= 63)%nat
  /\ XYZ "12"%string = XYZ (String "1" (String "2" EmptyString))
  /\ "12"%string = String "1" (String "2" EmptyString).
Proof.
  split; [reflexivity|]. split; [cbn; lia|]. split; [reflexivity|].
  apply (XYZ_injective "12"%string (String "1" (String "2" EmptyString)));
    try reflexivity; cbn; lia.
Defined.

(** ** The hierarchy *)

Lemma all_quad_app (s t : string) :
  all_quad (s ++ t) = all_quad s && all_quad t.
Proof.
  induction s as [|c s IH]; cbn [append all_quad]; [reflexivity|].
  now rewrite IH, andb_assoc.
Qed.

Lemma length_snoc (s : string) (c : ascii) :
  String.length (s ++ String c EmptyString) = S (String.length s).
Proof. induction s; cbn [append String.length]; congruence. Qed.

Lemma valid_key_snoc (s : string) (c : ascii) :
  valid_key (s ++ String c EmptyString) = all_quad s && is_quad c.
Proof.
  unfold valid_key. rewrite all_quad_app. cbn [all_quad]. rewrite andb_true_r.
  destruct s; reflexivity.
Qed.

Lemma substring_snoc (s : string) (c : ascii) :
  substring 0 (String.length s) (s ++ String c EmptyString) = s.
Proof.
  induction s as [|a s IH]; [reflexivity|].
  cbn [String.length append]. cbn [substring]. now rewrite IH.
Qed.

(** The four children of a valid key of at most 63 digits. *)
Lemma Children_append (k : QuadKey) :
  valid_key k = true -> (String.length k <= 63)%nat ->
  Children k = Some [k ++ "0"; k ++ "1"; k ++ "2"; k ++ "3"]%string.
Proof.
  intros Hv Hlen. unfold Children.
  rewrite (proj2 (Valid_valid_key k) Hv), (XYZ_dec k Hv Hlen).
  pose proof (dec_range xbit k) as Hx. pose proof (dec_range ybit k) as Hy.
  destruct (Z.ltb_spec (dec xbit k) 0); [lia|].
  destruct (Z.ltb_spec (dec ybit k) 0); [lia|].
  destruct (Z.ltb_spec (Z.of_nat (String.length k)) 0); [lia|].
  cbn [Datatypes.orb].
  apply valid_key_nonempty in Hv. destruct Hv as [_ Hq].
  pose proof (FromXYZ_child k false false Hq Hlen) as K0.
  pose proof (FromXYZ_child k true false Hq Hlen) as K1.
  pose proof (FromXYZ_child k false true Hq Hlen) as K2.
  pose proof (FromXYZ_child k true true Hq Hlen) as K3.
  cbn [child_coord quad] in K0, K1, K2, K3. cbv zeta.
  now rewrite K0, K1, K2, K3.
Qed.

(** The parent of a key with one more digit. *)
Lemma Parent_snoc (p : QuadKey) (c : ascii) :
  valid_key p = true -> is_quad c = true ->
  Parent (p ++ String c EmptyString)%string = (p, None).
Proof.
  intros Hv Hc. unfold Parent.
  assert (Hq : all_quad p = true) by (apply valid_key_nonempty in Hv; tauto).
  assert (Hl : (1 <= String.length p)%nat) by (apply valid_key_nonempty in Hv; tauto).
  rewrite (proj2 (Valid_valid_key _)) by (rewrite valid_key_snoc, Hq, Hc; reflexivity).
  unfold Z_. rewrite length_snoc.
  destruct (Z.eqb_spec (Z.of_nat (S (String.length p))) 1); [lia|].
  replace (Z.to_nat (Z.of_nat (S (String.length p)) - 1)) with (String.length p) by lia.
  now rewrite substring_snoc.
Qed.

(** X5.  Parent undoes Children: for every valid key k of at most 63
    digits, Children returns four keys, and Parent of each of them is k,
    with no error. *)
Theorem Parent_of_Children (k : QuadKey) :
  valid_key k = true -> (String.length k <= 63)%nat ->
  exists cs, Children k = Some cs /\ List.length cs = 4%nat
             /\ forall c, In c cs -> Parent c = (k, None).
Proof.
  intros Hv Hlen. rewrite (Children_append k Hv Hlen).
  eexists. split; [reflexivity|]. split; [reflexivity|].
  intros c [<-|[<-|[<-|[<-|[]]]]]; now apply Parent_snoc.
Qed.

Lemma Parent_of_Children_witness :
  valid_key "12" = true /\ (String.length "12" <= 63)%nat
  /\ exists cs, Children "12"%string = Some cs /\ List.length cs = 4%nat
                /\ forall c, In c cs -> Parent c = ("12"%string, None).
Proof.
  assert (H1 : valid_key "12" = true) by reflexivity.
  assert (H2 : (String.length "12" <= 63)%nat) by (cbn; lia).
  split; [exact H1|]. split; [exact H2|].
  exact (Parent_of_Children "12"%string H1 H2).
Defined.

(** X6.  Children undoes Parent: for every valid key k of 2 to 64 digits,
    Parent returns a key p with no error, and k is one of the four keys of
    Children(p). *)
Theorem Children_of_Parent (k : QuadKey) :
  valid_key k = true -> (2 <= String.length k <= 64)%nat ->
  exists p cs, Parent k = (p, None) /\ Children p = Some cs /\ In k cs.
Proof.
  intros Hv Hlen.
  destruct (substring_init k) as (p & c & Hk & _);
    [destruct k; [cbn in Hlen; lia|discriminate]|].
  subst k. rewrite valid_key_snoc in Hv. apply andb_true_iff in Hv.
  destruct Hv as [Hq Hc]. rewrite length_snoc in Hlen.
  assert (Hp : valid_key p = true).
  { unfold valid_key. rewrite Hq. destruct p; [cbn in Hlen; lia|reflexivity]. }
  exists p. rewrite (Children_append p Hp) by lia.
  eexists. split; [now apply Parent_snoc|]. split; [reflexivity|].
  destruct (is_quad_cases c Hc) as [->|[->|[->| ->]]]; cbn [In]; auto.
Qed.

Lemma Children_of_Parent_witness :
  valid_key "0123" = true /\ (2 <= String.length "0123" <= 64)%nat
  /\ exists p cs, Parent "0123"%string = (p, None) /\ Children p = Some cs
                  /\ In "0123"%string cs.
Proof.
  assert (H1 : valid_key "0123" = true) by reflexivity.
  assert (H2 : (2 <= String.length "0123" <= 64)%nat) by (cbn; lia).
  split; [exact H1|]. split; [exact H2|].
  exact (Children_of_Parent "0123"%string H1 H2).
Defined.

Lemma shl1_small (x : Z) : 0 <= x < 2 ^ 62 -> Int64.shl x 1 = 2 * x.
Proof.
  intros H. unfold Int64.shl. cbn [Z.leb Z.compare Pos.compare Pos.compare_cont].
  rewrite Z.shiftl_mul_pow2 by lia.
  rewrite wrap_small; [lia|].
  unfold Int64.in_range, Int64.min_int, Int64.max_int. lia.
Qed.

(** The coordinates of the four children, from the digits of the key. *)
Lemma Children_dec (k : QuadKey) :
  valid_key k = true -> (String.length k <= 62)%nat ->
  exists c0 c1 c2 c3,
    Children k = Some [c0; c1; c2; c3]
    /\ XYZ c0 = (2 * dec xbit k, 2 * dec ybit k, Z_ k + 1)
    /\ XYZ c1 = (2 * dec xbit k + 1, 2 * dec ybit k, Z_ k + 1)
    /\ XYZ c2 = (2 * dec xbit k, 2 * dec ybit k + 1, Z_ k + 1)
    /\ XYZ c3 = (2 * dec xbit k + 1, 2 * dec ybit k + 1, Z_ k + 1).
Proof.
  intros Hv Hlen. unfold Z_.
  pose proof (dec_range xbit k) as Hx. pose proof (dec_range ybit k) as Hy.
  set (n := Z.of_nat (String.length k)) in *.
  assert (Hn : 1 <= n <= 62)
    by (apply valid_key_nonempty in Hv; unfold n; lia).
  assert (Hp : 2 ^ n <= 2 ^ 62) by (apply Z.pow_le_mono_r; lia).
  assert (Hs : 2 ^ (n + 1) = 2 * 2 ^ n) by (rewrite Z.pow_add_r; lia).
  assert (Hr : forall cx cy, 0 <= cx < 2 ^ (n + 1) -> 0 <= cy < 2 ^ (n + 1) ->
            exists c, FromXYZ cx cy (n + 1) = Some c /\ XYZ c = (cx, cy, n + 1)).
  { intros cx cy Hcx Hcy.
    pose proof (XYZ_FromXYZ cx cy (n + 1) ltac:(lia) Hcx Hcy) as H.
    destruct (FromXYZ cx cy (n + 1)) as [c|]; [|discriminate].
    exists c. split; [reflexivity|]. now injection H. }
  unfold Children.
  rewrite (proj2 (Valid_valid_key k) Hv), (XYZ_dec k Hv) by lia. fold n.
  destruct (Z.ltb_spec (dec xbit k) 0); [lia|].
  destruct (Z.ltb_spec (dec ybit k) 0); [lia|].
  destruct (Z.ltb_spec n 0); [lia|].
  cbn [Datatypes.orb]. cbv zeta.
  rewrite !shl1_small by lia.
  unfold Int64.add.
  rewrite !wrap_small by (unfold Int64.in_range, Int64.min_int, Int64.max_int; lia).
  destruct (Hr (2 * dec xbit k) (2 * dec ybit k) ltac:(lia) ltac:(lia))
    as (c0 & F0 & E0).
  destruct (Hr (2 * dec xbit k + 1) (2 * dec ybit k) ltac:(lia) ltac:(lia))
    as (c1 & F1 & E1).
  destruct (Hr (2 * dec xbit k) (2 * dec ybit k + 1) ltac:(lia) ltac:(lia))
    as (c2 & F2 & E2).
  destruct (Hr (2 * dec xbit k + 1) (2 * dec ybit k + 1) ltac:(lia) ltac:(lia))
    as (c3 & F3 & E3).
  exists c0, c1, c2, c3.
  rewrite F0, F1, F2, F3. auto.
Qed.

(** X7.  The children are the 2x2 subdivision: if a valid key of at most
    62 digits decodes to (x, y, z), its four children decode, in order, to
    (2x, 2y), (2x+1, 2y), (2x, 2y+1) and (2x+1, 2y+1) at zoom z+1. *)
Theorem Children_coordinates (k : QuadKey) (x y z : Z) :
  valid_key k = true -> (String.length k <= 62)%nat -> XYZ k = (x, y, z) ->
  exists c0 c1 c2 c3,
    Children k = Some [c0; c1; c2; c3]
    /\ XYZ c0 = (2 * x, 2 * y, z + 1)
    /\ XYZ c1 = (2 * x + 1, 2 * y, z + 1)
    /\ XYZ c2 = (2 * x, 2 * y + 1, z + 1)
    /\ XYZ c3 = (2 * x + 1, 2 * y + 1, z + 1).
Proof.
  intros Hv Hlen E.
  rewrite (XYZ_dec k Hv) in E by lia. injection E as <- <- <-.
  exact (Children_dec k Hv Hlen).
Qed.

Lemma Children_coordinates_witness :
  valid_key "12" = true /\ (String.length "12" <= 62)%nat
  /\ XYZ "12"%string = (2, 1, 2)
  /\ exists c0 c1 c2 c3,
       Children "12"%string = Some [c0; c1; c2; c3]
       /\ XYZ c0 = (2 * 2, 2 * 1, 2 + 1)
       /\ XYZ c1 = (2 * 2 + 1, 2 * 1, 2 + 1)
       /\ XYZ c2 = (2 * 2, 2 * 1 + 1, 2 + 1)
       /\ XYZ c3 = (2 * 2 + 1, 2 * 1 + 1, 2 + 1).
Proof.
  assert (H1 : valid_key "12" = true) by reflexivity.
  assert (H2 : (String.length "12" <= 62)%nat) by (cbn; lia).
  assert (H3 : XYZ "12"%string = (2, 1, 2)) by reflexivity.
  split; [exact H1|]. split; [exact H2|]. split; [exact H3|].
  exact (Children_coordinates "12"%string 2 1 2 H1 H2 H3).
Defined.

(** X8.  The parent is the tile of halved coordinates: if a valid key of 2
    to 63 digits decodes to (x, y, z), Parent returns a key that decodes to
    (x / 2, y / 2, z - 1). *)
Theorem Parent_coordinates (k : QuadKey) (x y z : Z) :
  valid_key k = true -> (2 <= String.length k <= 63)%nat -> XYZ k = (x, y, z) ->
  exists p, Parent k = (p, None) /\ XYZ p = (x / 2, y / 2, z - 1).
Proof.
  intros Hv Hlen E.
  destruct (substring_init k) as (p & c & Hk & _);
    [destruct k; [cbn in Hlen; lia|discriminate]|].
  subst k. pose proof Hv as Hv'.
  rewrite valid_key_snoc in Hv. apply andb_true_iff in Hv.
  destruct Hv as [Hq Hc]. rewrite length_snoc in Hlen.
  assert (Hp : valid_key p = true).
  { unfold valid_key. rewrite Hq. destruct p; [cbn in Hlen; lia|reflexivity]. }
  exists p. split; [now apply Parent_snoc|].
  destruct (Children_dec p Hp ltac:(lia))
    as (c0 & c1 & c2 & c3 & Hch & E0 & E1 & E2 & E3).
  rewrite (XYZ_dec p Hp) by lia. fold (Z_ p).
  set (px := dec xbit p) in *. set (py := dec ybit p) in *. set (pz := Z_ p) in *.
  rewrite (Children_append p Hp) in Hch by lia.
  injection Hch as <- <- <- <-.
  assert (Hab : exists a b, 0 <= a <= 1 /\ 0 <= b <= 1
                            /\ (x, y, z) = (2 * px + a, 2 * py + b, pz + 1)).
  { destruct (is_quad_cases c Hc) as [->|[->|[->| ->]]]; rewrite <- E.
    - exists 0, 0. rewrite !Z.add_0_r. auto with zarith.
    - exists 1, 0. rewrite !Z.add_0_r. auto with zarith.
    - exists 0, 1. rewrite !Z.add_0_r. auto with zarith.
    - exists 1, 1. auto with zarith. }
  destruct Hab as (a & b & Ha & Hb & Hxyz).
  apply pair_equal_spec in Hxyz. destruct Hxyz as [Hxy ->].
  apply pair_equal_spec in Hxy. destruct Hxy as [-> ->].
  f_equal; [f_equal|lia].
  - apply Z.div_unique with (r := a); lia.
  - apply Z.div_unique with (r := b); lia.
Qed.

Lemma Parent_coordinates_witness :
  valid_key "0123" = true /\ (2 <= String.length "0123" <= 63)%nat
  /\ XYZ "0123"%string = (5, 3, 4)
  /\ exists p, Parent "0123"%string = (p, None) /\ XYZ p = (5 / 2, 3 / 2, 4 - 1).
Proof.
  assert (H1 : valid_key "0123" = true) by reflexivity.
  assert (H2 : (2 <= String.length "0123" <= 63)%nat) by (cbn; lia).
  assert (H3 : XYZ "0123"%string = (5, 3, 4)) by reflexivity.
  split; [exact H1|]. split; [exact H2|]. split; [exact H3|].
  exact (Parent_coordinates "0123"%string 5 3 4 H1 H2 H3).
Defined.

(** ** The error of Valid *)

Lemma Valid_loop_first (rest : string) (i0 i : Z) (c : ascii) :
  Valid_loop rest i0 = Some (ErrDigit i c) ->
  i0 <= i
  /\ String.get (Z.to_nat (i - i0)) rest = Some c
  /\ is_quad c = false
  /\ forall j, (j < Z.to_nat (i - i0))%nat ->
               exists d, String.get j rest = Some d /\ is_quad d = true.
Proof.
  revert i0. induction rest as [|a rest IH]; intros i0; cbn [Valid_loop];
    [discriminate|].
  destruct (is_quad a) eqn:Ea.
  - intros H. destruct (IH (i0 + 1) H) as (Hi & Hg & Hc & Hj).
    split; [lia|].
    replace (Z.to_nat (i - i0)) with (S (Z.to_nat (i - (i0 + 1)))) by lia.
    split; [exact Hg|]. split; [exact Hc|].
    intros [|j] Hlt; [exists a; auto|]. apply Hj. lia.
  - intros [= <- <-]. rewrite Z.sub_diag.
    split; [lia|]. split; [reflexivity|]. split; [assumption|].
    intros j Hj. cbn in Hj. lia.
Qed.

(** X9.  Valid reports the first offending character: it fails with the
    empty-key error exactly on the empty string; when it fails with an
    invalid-digit error (i, c), c is the character at index i, c is not one
    of '0'..'3', and every character before index i is; it never fails
    with the root error. *)
Theorem Valid_reports_first_offender (s : string) :
  (Valid s = Some ErrEmpty <-> s = EmptyString)
  /\ (forall i c, Valid s = Some (ErrDigit i c) ->
        0 <= i /\ String.get (Z.to_nat i) s = Some c /\ is_quad c = false
        /\ forall j, (j < Z.to_nat i)%nat ->
                     exists d, String.get j s = Some d /\ is_quad d = true)
  /\ Valid s <> Some ErrRoot.
Proof.
  unfold Valid. destruct s as [|a s].
  - cbn. split; [tauto|]. split; [intros i c H; discriminate|discriminate].
  - change (String.eqb (String a s) "") with false. cbv iota.
    split; [|split].
    + split; [|discriminate]. intros H.
      destruct (Valid_loop_error _ _ _ H) as (j & c & Hc & _). discriminate.
    + intros i c H. apply Valid_loop_first in H.
      rewrite Z.sub_0_r in H. exact H.
    + intros H. destruct (Valid_loop_error _ _ _ H) as (j & c & Hc & _).
      discriminate.
Qed.

Lemma Valid_reports_first_offender_witness :
  Valid "01a3"%string = Some (ErrDigit 2 "a")
  /\ (0 <= 2 /\ String.get (Z.to_nat 2) "01a3" = Some "a"%char
      /\ is_quad "a" = false
      /\ forall j, (j < Z.to_nat 2)%nat ->
                   exists d, String.get j "01a3" = Some d /\ is_quad d = true).
Proof.
  split; [reflexivity|].
  apply (proj1 (proj2 (Valid_reports_first_offender "01a3"%string))).
  reflexivity.
Defined.

(** ** Keys of 64 digits *)

(** X10.  A key of 64 digits is past what the 64-bit coordinates hold: if
    it is valid and its first digit is not '0', XYZ returns a negative x or
    y (with z = 64), Children returns the empty list and Bound returns the
    zero rectangle, as they do for an invalid key. *)
Theorem key_of_64_digits (Atan Sinh : float -> float) (c : ascii) (rest : string) :
  valid_key (String c rest) = true -> String.length rest = 63%nat ->
  c <> "0"%char ->
  (exists x y, XYZ (String c rest) = (x, y, 64) /\ (x < 0 \/ y < 0))
  /\ Children (String c rest) = Some []
  /\ Bound Atan Sinh (String c rest) = orb.zero_Bound.
Proof.
  intros Hv Hlen Hc.
  assert (Hq : is_quad c = true /\ all_quad rest = true).
  { apply valid_key_nonempty in Hv. destruct Hv as [_ Hq].
    cbn [all_quad] in Hq. now apply andb_true_iff in Hq. }
  destruct Hq as [Hqc Hqr].
  pose proof (dec_range xbit rest) as Hx. pose proof (dec_range ybit rest) as Hy.
  assert (Hneg : forall d, 0 <= d -> Z.lor (- 2 ^ 63) d < 0)
    by (intros d Hd; apply Z.lor_neg; lia).
  assert (E : exists x y, XYZ (String c rest) = (x, y, 64) /\ (x < 0 \/ y < 0)).
  { unfold XYZ. rewrite (proj2 (Valid_valid_key _) Hv).
    unfold Z_. cbn [String.length]. rewrite Hlen.
    change (Z.of_nat 64) with 64. cbn [XYZ_loop].
    change (64 - 1) with 63. rewrite shl_one_63.
    set (M := - 2 ^ 63) in *.
    replace 63 with (Z.of_nat (String.length rest)) by (rewrite Hlen; reflexivity).
    destruct (is_quad_cases c Hqc) as [->|[->|[->| ->]]];
      [contradiction| | |];
      cbn [Ascii.eqb Bool.eqb]; rewrite XYZ_loop_dec by (auto; lia);
      rewrite ?Z.lor_0_l; do 2 eexists;
      (split; [reflexivity|]); [left|right|left]; apply Hneg; lia. }
  split; [exact E|].
  destruct E as (x & y & E & Hxy).
  assert (Hg : (x <? 0) || (y <? 0) || (64 <? 0) = true).
  { destruct Hxy as [H|H]; apply Z.ltb_lt in H; rewrite H;
      [reflexivity|apply orb_true_iff; left; apply orb_true_r]. }
  split.
  - unfold Children. rewrite (proj2 (Valid_valid_key _) Hv), E, Hg. reflexivity.
  - unfold Bound. rewrite (proj2 (Valid_valid_key _) Hv), E, Hg. reflexivity.
Qed.

Lemma key_of_64_digits_witness :
  valid_key (key_d0 "3" 64) = true
  /\ String.length (FromXYZ_loop 0 0 63) = 63%nat
  /\ "3"%char <> "0"%char
  /\ Children (key_d0 "3" 64) = Some []
  /\ Bound id_fn id_fn (key_d0 "3" 64) = orb.zero_Bound.
Proof.
  assert (H1 : valid_key (key_d0 "3" 64) = true) by (vm_compute; reflexivity).
  assert (H2 : String.length (FromXYZ_loop 0 0 63) = 63%nat) by (vm_compute; reflexivity).
  assert (H3 : "3"%char <> "0"%char) by discriminate.
  split; [exact H1|]. split; [exact H2|]. split; [exact H3|].
  exact (proj2 (key_of_64_digits id_fn id_fn "3" (FromXYZ_loop 0 0 63) H1 H2 H3)).
Defined.

Section MoreMercatorFacts.
Variables Log Tan Cos : float -> float.

(** X11.  What KeysInBound returns: it panics on every negative zoom; when
    it returns a list, the zoom is not negative, the list is not empty,
    and each of its keys has exactly zoom digits, all in '0'..'3' (a valid
    key from zoom 1 on; at zoom 0 the keys are empty strings). *)
Theorem KeysInBound_keys (bound : orb.Bound) (zoom : Z) :
  (zoom < 0 -> KeysInBound Log Tan Cos bound zoom = None)
  /\ (forall l, KeysInBound Log Tan Cos bound zoom = Some l ->
        0 <= zoom /\ l <> []
        /\ forall k, In k l ->
             Z_ k = zoom /\ all_quad k = true /\ (1 <= zoom -> Valid k = None)).
Proof.
  assert (H : forall l, KeysInBound Log Tan Cos bound zoom = Some l ->
        0 <= zoom /\ l <> []
        /\ forall k, In k l ->
             Z_ k = zoom /\ all_quad k = true /\ (1 <= zoom -> Valid k = None)).
  { intros l E. rewrite KeysInBound_enumerate in E.
    destruct (edges bound) as [[[w e] n] s].
    apply enumerate_Some in E. destruct E as [Hz ->].
    split; [assumption|]. split.
    - destruct (tiles_nonempty (Z.min (toX w zoom) (toX e zoom))
                  (Z.max (toX w zoom) (toX e zoom))
                  (Z.min (toY Log Tan Cos n zoom) (toY Log Tan Cos s zoom))
                  (Z.max (toY Log Tan Cos n zoom) (toY Log Tan Cos s zoom))
                  (Z.to_nat zoom)) as [l' ->]; [lia|lia|discriminate].
    - intros k Hk. apply in_tiles in Hk. destruct Hk as (x & y & _ & _ & ->).
      split; [unfold Z_; rewrite length_FromXYZ_loop; lia|].
      split; [apply all_quad_FromXYZ_loop|].
      intros H1. apply Valid_valid_key, valid_key_FromXYZ_loop. lia. }
  split; [|exact H].
  intros Hneg. destruct (KeysInBound Log Tan Cos bound zoom) as [l|] eqn:E;
    [|reflexivity].
  destruct (H l eq_refl) as [Hz _]. lia.
Qed.

(** X12.  FromLonLat and FromPoint never fail on their coordinates: for
    every zoom from 1 to 64 and every longitude and latitude, NaN and
    infinities included, FromLonLat returns a valid key of exactly zoom
    digits, and FromPoint returns the same key for the point (lon, lat);
    on a negative zoom both panic. *)
Theorem FromLonLat_well_formed (lon lat : float) (zoom : Z) :
  FromPoint Log Tan Cos (lon, lat) zoom = FromLonLat Log Tan Cos lon lat zoom
  /\ (zoom < 0 -> FromLonLat Log Tan Cos lon lat zoom = None)
  /\ (1 <= zoom <= 64 ->
      exists k, FromLonLat Log Tan Cos lon lat zoom = Some k
                /\ Z_ k = zoom /\ Valid k = None).
Proof.
  split; [reflexivity|].
  unfold FromLonLat. destruct (normalize lon lat) as [lon' lat'].
  unfold FromXYZ. split; intros Hz.
  - destruct (Z.ltb_spec zoom 0); [reflexivity|lia].
  - destruct (Z.ltb_spec zoom 0); [lia|].
    eexists. split; [reflexivity|].
    split; [unfold Z_; rewrite length_FromXYZ_loop; lia|].
    apply Valid_valid_key, valid_key_FromXYZ_loop. lia.
Qed.

(** X13.  Every latitude beyond the Mercator limit lands in the row of the
    limit: for a latitude above MERCATOR_MAX_LAT (90 and +Inf included)
    normalize returns what it returns for MERCATOR_MAX_LAT itself, so
    FromLonLat returns the same key; likewise below -MERCATOR_MAX_LAT. *)
Theorem latitude_clamp_collapses (lon lat : float) (zoom : Z) :
  ((MERCATOR_MAX_LAT <? lat)%float = true ->
   normalize lon lat = normalize lon MERCATOR_MAX_LAT
   /\ FromLonLat Log Tan Cos lon lat zoom
      = FromLonLat Log Tan Cos lon MERCATOR_MAX_LAT zoom)
  /\ ((lat <? - MERCATOR_MAX_LAT)%float = true ->
      normalize lon lat = normalize lon (- MERCATOR_MAX_LAT)%float
      /\ FromLonLat Log Tan Cos lon lat zoom
         = FromLonLat Log Tan Cos lon (- MERCATOR_MAX_LAT)%float zoom).
Proof.
  split; intros H.
  - assert (E : normalize lon lat = normalize lon MERCATOR_MAX_LAT).
    { unfold normalize. rewrite H.
      change (MERCATOR_MAX_LAT <? MERCATOR_MAX_LAT)%float with false.
      change (MERCATOR_MAX_LAT <? - MERCATOR_MAX_LAT)%float with false.
      reflexivity. }
    split; [exact E|]. unfold FromLonLat. now rewrite E.
  - assert (E : normalize lon lat = normalize lon (- MERCATOR_MAX_LAT)%float).
    { unfold normalize. rewrite H.
      assert (Hn : (MERCATOR_MAX_LAT <? lat)%float = false).
      { apply float_leb_not_ltb.
        rewrite FloatAxioms.leb_spec. rewrite FloatAxioms.ltb_spec in H.
        change (Prim2SF MERCATOR_MAX_LAT)
          with (S754_finite false 5984941123141376 (-46)).
        change (Prim2SF (- MERCATOR_MAX_LAT))
          with (S754_finite true 5984941123141376 (-46)) in H.
        unfold SFltb in H. unfold SFleb.
        destruct (Prim2SF lat) as [s|s| |s m e]; try discriminate;
          destruct s; try discriminate; reflexivity. }
      rewrite Hn.
      change (MERCATOR_MAX_LAT <? - MERCATOR_MAX_LAT)%float with false.
      change (- MERCATOR_MAX_LAT <? - MERCATOR_MAX_LAT)%float with false.
      reflexivity. }
    split; [exact E|]. unfold FromLonLat. now rewrite E.
Qed.

End MoreMercatorFacts.

Lemma KeysInBound_keys_witness :
  (-1 < 0 /\ KeysInBound id_fn id_fn id_fn orb.zero_Bound (-1) = None)
  /\ (KeysInBound id_fn id_fn id_fn (Bound id_fn id_fn "01"%string) 2
      = Some ["01"%string; "10"%string]
      /\ forall k, In k ["01"%string; "10"%string] ->
           Z_ k = 2 /\ all_quad k = true /\ (1 <= 2 -> Valid k = None)).
Proof.
  split.
  - split; [lia|].
    apply (proj1 (KeysInBound_keys id_fn id_fn id_fn orb.zero_Bound (-1))). lia.
  - assert (E : KeysInBound id_fn id_fn id_fn (Bound id_fn id_fn "01"%string) 2
                = Some ["01"%string; "10"%string]) by (vm_compute; reflexivity).
    split; [exact E|].
    apply (proj2 (KeysInBound_keys id_fn id_fn id_fn _ 2) _ E).
Defined.

Lemma FromLonLat_well_formed_witness :
  (-1 < 0 /\ FromLonLat id_fn id_fn id_fn nan 0 (-1) = None)
  /\ (1 <= 8 <= 64
      /\ exists k, FromLonLat id_fn id_fn id_fn nan infinity 8 = Some k
                   /\ Z_ k = 8 /\ Valid k = None).
Proof.
  split.
  - split; [lia|].
    apply (proj1 (proj2 (FromLonLat_well_formed id_fn id_fn id_fn nan 0 (-1)))). lia.
  - split; [lia|].
    apply (proj2 (proj2 (FromLonLat_well_formed id_fn id_fn id_fn nan infinity 8))). lia.
Defined.

Lemma latitude_clamp_collapses_witness :
  ((MERCATOR_MAX_LAT <? 90)%float = true
   /\ FromLonLat id_fn id_fn id_fn 0 90 3
      = FromLonLat id_fn id_fn id_fn 0 MERCATOR_MAX_LAT 3)
  /\ ((-90 <? - MERCATOR_MAX_LAT)%float = true
      /\ FromLonLat id_fn id_fn id_fn 0 (-90) 3
         = FromLonLat id_fn id_fn id_fn 0 (- MERCATOR_MAX_LAT)%float 3).
Proof.
  split.
  - split; [reflexivity|].
    apply (proj1 (latitude_clamp_collapses id_fn id_fn id_fn 0 90 3)). reflexivity.
  - split; [reflexivity|].
    apply (proj2 (latitude_clamp_collapses id_fn id_fn id_fn 0 (-90) 3)). reflexivity.
Defined.

(** ** Rounding never yields a NaN *)

Lemma shr_1_nonneg (mrs : shr_record) : 0 <= shr_m mrs -> 0 <= shr_m (shr_1 mrs).
Proof.
  destruct mrs as [m r s]. cbn [shr_m]. intros H.
  destruct m as [|[p|p|]|p]; cbn; lia.
Qed.

Lemma iter_shr_1_nonneg (p : positive) (mrs : shr_record) :
  0 <= shr_m mrs -> 0 <= shr_m (iter_pos shr_1 p mrs).
Proof.
  revert mrs. induction p as [p IH|p IH|]; intros mrs H; cbn [iter_pos].
  - apply IH, IH, shr_1_nonneg, H.
  - apply IH, IH, H.
  - apply shr_1_nonneg, H.
Qed.

Lemma shr_fexp_nonneg (m e : Z) (l : location) :
  0 <= m -> 0 <= shr_m (fst (shr_fexp prec emax m e l)).
Proof.
  intros H. unfold shr_fexp, shr.
  assert (H0 : 0 <= shr_m (shr_record_of_loc m l))
    by (destruct l as [|[| |]]; exact H).
  destruct (fexp prec emax (Zdigits2 m + e) - e) as [|p|p]; cbn [fst];
    [exact H0| |exact H0].
  apply iter_shr_1_nonneg, H0.
Qed.

Lemma round_nearest_even_nonneg (m : Z) (l : location) :
  0 <= m -> 0 <= round_nearest_even m l.
Proof.
  intros H. destruct l as [|[| |]]; cbn [round_nearest_even]; try lia.
  destruct (Z.even m); lia.
Qed.

Lemma binary_round_aux_not_nan (s : bool) (m e : Z) (l : location) :
  0 <= m -> binary_round_aux prec emax s m e l <> S754_nan.
Proof.
  intros H. unfold binary_round_aux.
  pose proof (shr_fexp_nonneg m e l H) as H1.
  destruct (shr_fexp prec emax m e l) as [mrs' e']. cbn [fst] in H1.
  pose proof (shr_fexp_nonneg _ e' loc_Exact
                (round_nearest_even_nonneg _ (loc_of_shr_record mrs') H1)) as H2.
  destruct (shr_fexp prec emax _ e' loc_Exact) as [mrs'' e'']. cbn [fst] in H2.
  destruct (shr_m mrs'') as [|p|p]; [discriminate| |lia].
  destruct (e'' <=? emax - prec); discriminate.
Qed.

Lemma binary_normalize_not_nan (m e : Z) (sz : bool) :
  binary_normalize prec emax m e sz <> S754_nan.
Proof.
  destruct m as [|p|p]; cbn [binary_normalize]; [discriminate| |];
    unfold binary_round;
    destruct (shl_align _ _ _) as [mz ez]; apply binary_round_aux_not_nan; lia.
Qed.

Lemma SFadd_not_nan (a : spec_float) (s : bool) (m : positive) (e : Z) :
  a <> S754_nan -> SFadd prec emax a (S754_finite s m e) <> S754_nan.
Proof.
  intros H. destruct a as [sa|sa| |sa ma ea]; cbn [SFadd]; try discriminate;
    [congruence|]. apply binary_normalize_not_nan.
Qed.

Lemma SFmul_not_nan (a : spec_float) (s : bool) (m : positive) (e : Z) :
  a <> S754_nan -> SFmul prec emax a (S754_finite s m e) <> S754_nan.
Proof.
  intros H. destruct a as [sa|sa| |sa ma ea]; cbn [SFmul]; try discriminate;
    [congruence|]. apply binary_round_aux_not_nan. lia.
Qed.

Lemma SFdiv_not_nan (a : spec_float) (s : bool) (m : positive) (e : Z) :
  a <> S754_nan -> SFdiv prec emax a (S754_finite s m e) <> S754_nan.
Proof.
  intros H. destruct a as [sa|sa| |sa ma ea]; cbn [SFdiv]; try discriminate;
    [congruence|].
  unfold SFdiv_core_binary.
  set (m' := match _ - _ - _ with Z0 => _ | Z.pos _ => _ | Z.neg _ => _ end).
  assert (Hm : 0 <= m').
  { subst m'. destruct (_ - _ - _) as [|p|p]; try lia.
    apply Z.shiftl_nonneg. lia. }
  assert (Hq : 0 <= m' / Z.pos m) by (apply Z.div_pos; lia).
  unfold Z.div in Hq. destruct (Z.div_eucl m' (Z.pos m)) as [q r].
  apply binary_round_aux_not_nan. exact Hq.
Qed.

(** ** NaN tests and the order of binary64 *)

Lemma SFcompare_refl (a : spec_float) : a <> S754_nan -> SFcompare a a = Some Eq.
Proof.
  intros H. destruct a as [s|s| |s m e]; try congruence.
  - reflexivity.
  - destruct s; reflexivity.
  - cbn [SFcompare]. rewrite Z.compare_refl.
    change (Pos.compare_cont Eq m m) with (Pos.compare m m).
    rewrite Pos.compare_refl. destruct s; reflexivity.
Qed.

Lemma is_nan_false (a : float) : is_nan a = false <-> Prim2SF a <> S754_nan.
Proof.
  split; [apply Prim2SF_not_nan|].
  intros H. unfold is_nan. rewrite FloatAxioms.eqb_spec. unfold SFeqb.
  now rewrite SFcompare_refl.
Qed.

Lemma is_nan_true (a : float) : is_nan a = true <-> Prim2SF a = S754_nan.
Proof.
  split.
  - intros H. destruct (Prim2SF a) as [s|s| |s m e] eqn:E; try reflexivity;
      assert (N : is_nan a = false) by (apply is_nan_false; rewrite E; discriminate);
      congruence.
  - intros E. unfold is_nan. rewrite FloatAxioms.eqb_spec, E. reflexivity.
Qed.

Lemma float_leb_refl (a : float) : is_nan a = false -> (a <=? a)%float = true.
Proof.
  intros H. apply is_nan_false in H. rewrite FloatAxioms.leb_spec. unfold SFleb.
  now rewrite SFcompare_refl.
Qed.

Lemma float_eqb_leb (a b : float) : (a =? b)%float = true -> (a <=? b)%float = true.
Proof.
  rewrite FloatAxioms.eqb_spec, FloatAxioms.leb_spec. unfold SFeqb, SFleb.
  destruct (SFcompare _ _) as [[| |]|]; congruence.
Qed.

Lemma float_ltb_leb (a b : float) : (a <? b)%float = true -> (a <=? b)%float = true.
Proof.
  rewrite FloatAxioms.ltb_spec, FloatAxioms.leb_spec. unfold SFltb, SFleb.
  destruct (SFcompare _ _) as [[| |]|]; congruence.
Qed.

(** ** Min and Max *)

(** Of two numbers, [math.Min] returns a number that is at most the
    second. *)
Lemma Min_le (x y : float) :
  is_nan x = false -> is_nan y = false ->
  is_nan (GoMath.Min x y) = false /\ (GoMath.Min x y <=? y)%float = true.
Proof.
  intros Hx Hy. unfold GoMath.Min. rewrite Hx, Hy. cbn [Datatypes.orb].
  destruct ((x =? neg_infinity)%float || (y =? neg_infinity)%float) eqn:E1.
  - split; [reflexivity|].
    apply is_nan_false in Hy. rewrite FloatAxioms.leb_spec.
    change (Prim2SF neg_infinity) with (S754_infinity true).
    destruct (Prim2SF y) as [s|s| |s m e]; try congruence; try reflexivity.
    destruct s; reflexivity.
  - destruct ((x =? 0)%float && (x =? y)%float) eqn:E2.
    + apply andb_true_iff in E2. destruct E2 as [_ E2].
      destruct (get_sign x).
      * split; [assumption|]. now apply float_eqb_leb.
      * split; [assumption|]. now apply float_leb_refl.
    + destruct (x <? y)%float eqn:E3.
      * split; [assumption|]. now apply float_ltb_leb.
      * split; [assumption|]. now apply float_leb_refl.
Qed.

(** [math.Max] of 0 and a number is at least 0, and at most every bound of
    both. *)
Lemma Max0_bounds (m y : float) :
  is_nan m = false -> (m <=? y)%float = true -> (0 <=? y)%float = true ->
  (0 <=? GoMath.Max 0 m)%float = true /\ (GoMath.Max 0 m <=? y)%float = true.
Proof.
  intros Hm Hmy H0y. unfold GoMath.Max. rewrite Hm.
  change (is_nan 0) with false. change (0 =? infinity)%float with false.
  change (0 =? 0)%float with true. change (get_sign 0) with false.
  cbn [Datatypes.orb andb].
  destruct (m =? infinity)%float eqn:E1.
  - split; [reflexivity|].
    rewrite FloatAxioms.eqb_spec in E1. rewrite FloatAxioms.leb_spec in Hmy |- *.
    change (Prim2SF infinity) with (S754_infinity false) in *.
    destruct (Prim2SF m) as [s|s| |s m' e']; try discriminate.
    destruct s; [discriminate|exact Hmy].
  - destruct (0 =? m)%float eqn:E2; [split; [reflexivity|assumption]|].
    destruct (m <? 0)%float eqn:E3; [split; [reflexivity|assumption]|].
    split; [|assumption].
    apply float_not_ltb_leb; [reflexivity|assumption|assumption].
Qed.

(** A NaN goes through the clamp and comes out of [int(f)] as the smallest
    [int]. *)
Lemma clamp_nan (x y : float) :
  is_nan x = true -> (y =? neg_infinity)%float = false ->
  GoMath.to_int (GoMath.Max 0 (GoMath.Min x y)) = Int64.min_int.
Proof.
  intros Hx Hy.
  assert (E : Prim2SF (GoMath.Min x y) = S754_nan).
  { unfold GoMath.Min. rewrite Hx, Hy.
    replace (x =? neg_infinity)%float with false; [reflexivity|].
    apply is_nan_true in Hx. now rewrite FloatAxioms.eqb_spec, Hx. }
  assert (E' : Prim2SF (GoMath.Max 0 (GoMath.Min x y)) = S754_nan).
  { unfold GoMath.Max.
    replace (GoMath.Min x y =? infinity)%float with false
      by now rewrite FloatAxioms.eqb_spec, E.
    replace (is_nan (GoMath.Min x y)) with true
      by (symmetry; now apply is_nan_true).
    reflexivity. }
  unfold GoMath.to_int. now rewrite E'.
Qed.

(** ** Conversion to [int] *)

(** [int(f)] of a number between 0 and a number of integral value [N],
    below 2^63, is between 0 and [N]. *)
Lemma to_int_bounds (r y : float) (N : Z) :
  (0 <=? r)%float = true -> (r <=? y)%float = true ->
  0 <= N <= Int64.max_int ->
  (Prim2SF y = S754_zero false /\ N = 0
   \/ exists m e, Prim2SF y = S754_finite false m e /\ fval m e = N * 2 ^ 1074) ->
  0 <= GoMath.to_int r <= N.
Proof.
  intros H0 Hy HN Y. unfold GoMath.to_int.
  rewrite FloatAxioms.leb_spec in H0, Hy.
  change (Prim2SF 0) with (S754_zero false) in H0.
  destruct (Prim2SF r) as [s|s| |s m e] eqn:E; try discriminate.
  - lia.
  - destruct s; [discriminate|].
    destruct Y as [[Y _]|(my & ey & Y & _)]; rewrite Y in Hy; discriminate.
  - destruct s; [discriminate|].
    destruct Y as [[Y _]|(my & ey & Y & V)]; [rewrite Y in Hy; discriminate|].
    destruct (Prim2SF_canonical r false m e E) as [Hc He].
    destruct (Prim2SF_canonical y false my ey Y) as [Hcy _].
    rewrite Y, SFleb_pos in Hy by assumption. apply Z.leb_le in Hy.
    rewrite V in Hy. unfold fval in Hy.
    set (a := if 0 <=? e then Z.pos m * 2 ^ e else Z.pos m / 2 ^ (- e)).
    assert (Ha : 0 <= a <= N).
    { subst a. destruct (0 <=? e) eqn:Ee.
      - apply Z.leb_le in Ee. rewrite Z.pow_add_r, Z.mul_assoc in Hy by lia.
        pose proof (Z.pow_pos_nonneg 2 e ltac:(lia) Ee).
        pose proof (Z.pow_pos_nonneg 2 1074 ltac:(lia) ltac:(lia)).
        apply Z.mul_le_mono_pos_r in Hy; [|assumption].
        split; [apply Z.mul_nonneg_nonneg; lia|exact Hy].
      - apply Z.leb_gt in Ee.
        assert (P : 0 < 2 ^ (- e)) by (apply Z.pow_pos_nonneg; lia).
        split; [apply Z.div_pos; lia|].
        assert (Hle : Z.pos m <= N * 2 ^ (- e)).
        { assert (S : 2 ^ 1074 = 2 ^ (e + 1074) * 2 ^ (- e))
            by (rewrite <- Z.pow_add_r by lia; f_equal; lia).
          pose proof (Z.pow_pos_nonneg 2 (e + 1074) ltac:(lia) ltac:(lia)).
          rewrite S, (Z.mul_comm (Z.pos m)), (Z.mul_comm (2 ^ (e + 1074)) (2 ^ (- e))),
            Z.mul_assoc, (Z.mul_comm (N * 2 ^ (- e))) in Hy.
          apply Z.mul_le_mono_pos_l in Hy; lia. }
        apply Z.div_le_upper_bound; lia. }
    cbv zeta. fold a.
    unfold Int64.min_int, Int64.max_int in *.
    replace ((- 2 ^ 63 <=? a) && (a <=? 2 ^ 63 - 1)) with true; [lia|].
    symmetry. apply andb_true_iff. split; apply Z.leb_le; lia.
Qed.

(** ** The number of tiles of a row *)

Lemma Exp2i_small (z : Z) : 0 <= z <= 53 -> Exp2i_ok z = true.
Proof.
  intros H.
  assert (A : forallb Exp2i_ok (int_range 0 53) = true) by (vm_compute; reflexivity).
  rewrite forallb_forall in A. apply A, in_int_range, H.
Qed.

(** ** Floor *)

(** [float64(v)] is exact for an integer of magnitude below 2^53. *)
Lemma of_int_small (v : Z) :
  - 2 ^ 53 < v < 2 ^ 53 -> is_nan (GoMath.of_int v) = false.
Proof.
  intros H. apply is_nan_false. unfold GoMath.of_int.
  assert (R : forall s p, Z.pos p < 2 ^ 53 ->
            Prim2SF (SF2Prim (binary_round prec emax s p 0)) <> S754_nan).
  { intros s p Hp.
    destruct (binary_round_exact s p 0 (digits2_le p 53 Hp) ltac:(lia))
      as (m' & e' & -> & V & C & B).
    rewrite Prim2SF_finite; [discriminate|exact C|lia]. }
  destruct v as [|p|p]; cbn [binary_normalize].
  - rewrite Prim2SF_SF2Prim by reflexivity. discriminate.
  - apply R. lia.
  - apply R. lia.
Qed.

Lemma Floor_not_nan (f : float) :
  is_nan f = false -> is_nan (GoMath.Floor f) = false.
Proof.
  intros H. unfold GoMath.Floor.
  destruct (Prim2SF f) as [s|s| |s m e] eqn:E; try assumption.
  destruct (e <? 0) eqn:Ee; [|assumption]. apply Z.ltb_lt in Ee.
  apply of_int_small.
  destruct (Prim2SF_canonical f s m e E) as [C _].
  apply canonical_digits in C. destruct C as (D & _ & _).
  pose proof (digits2_bounds m) as [_ U].
  assert (Hm : Z.pos m < 2 ^ 53).
  { apply Z.lt_le_trans with (2 ^ Z.pos (digits2_pos m)); [assumption|].
    apply Z.pow_le_mono_r; lia. }
  assert (P : 1 <= 2 ^ (- e))
    by (pose proof (Z.pow_pos_nonneg 2 (- e) ltac:(lia) ltac:(lia)); lia).
  destruct s.
  - split.
    + apply Z.lt_le_trans with (Z.neg m); [lia|].
      apply Z.div_le_lower_bound; [lia|]. nia.
    + apply Z.le_lt_trans with 0; [|lia].
      apply Z.lt_succ_r, Z.div_lt_upper_bound; lia.
  - split.
    + apply Z.lt_le_trans with 0; [lia|]. apply Z.div_pos; lia.
    + apply Z.le_lt_trans with (Z.pos m); [|assumption].
      apply Z.div_le_upper_bound; [lia|]. nia.
Qed.

(** ** The tile coordinates stay in the grid *)

Lemma to_int_in_range (f : float) : Int64.in_range (GoMath.to_int f).
Proof.
  unfold GoMath.to_int, Int64.in_range.
  assert (M : Int64.min_int <= Int64.min_int <= Int64.max_int)
    by (unfold Int64.min_int, Int64.max_int; lia).
  destruct (Prim2SF f) as [s|s| |s m e]; try exact M.
  - unfold Int64.min_int, Int64.max_int; lia.
  - cbv zeta. destruct (_ && _) eqn:E; [|exact M].
    apply andb_true_iff in E. destruct E as [E1 E2].
    apply Z.leb_le in E1, E2. split; assumption.
Qed.

(** The clamp [int(math.Max(0, math.Min(x, n-1)))] of toX and toY. *)
Lemma clamp_in_grid (x : float) (z : Z) :
  0 <= z <= 53 ->
  let r := GoMath.to_int (GoMath.Max 0 (GoMath.Min x (GoMath.Exp2i z - 1))) in
  if is_nan x then r = Int64.min_int else 0 <= r <= 2 ^ z - 1.
Proof.
  intros Hz r. subst r.
  pose proof (Exp2i_small z Hz) as E. unfold Exp2i_ok in E.
  apply andb_true_iff in E. destruct E as [E Y].
  apply andb_true_iff in E. destruct E as [E P].
  apply andb_true_iff in E. destruct E as [E N].
  apply andb_true_iff in E. destruct E as [_ I].
  apply negb_true_iff in I, N.
  destruct (is_nan x) eqn:Hx.
  - now apply clamp_nan.
  - destruct (Min_le x _ Hx N) as [Hm Hle].
    destruct (Max0_bounds _ _ Hm Hle P) as [H0 H1].
    apply (to_int_bounds _ _ (2 ^ z - 1) H0 H1).
    + assert (1 <= 2 ^ z) by (apply (Z.pow_le_mono_r 2 0 z); lia).
      assert (2 ^ z <= 2 ^ 53) by (apply Z.pow_le_mono_r; lia).
      unfold Int64.max_int. lia.
    + destruct (Prim2SF (GoMath.Exp2i z - 1)) as [s|s| |s m e]; try discriminate.
      * destruct s; [discriminate|]. left. apply Z.eqb_eq in Y. subst z.
        split; reflexivity.
      * destruct s; [discriminate|]. right. exists m, e. apply Z.eqb_eq in Y.
        split; [reflexivity|exact Y].
Qed.

Lemma projection_x_not_nan (lon : float) (z : Z) :
  0 <= z <= 53 -> is_nan lon = false ->
  is_nan (GoMath.Floor ((lon + 180) / 360 * GoMath.Exp2i z)%float) = false.
Proof.
  intros Hz H.
  pose proof (Exp2i_small z Hz) as E. unfold Exp2i_ok in E.
  do 4 (apply andb_true_iff in E; destruct E as [E _]).
  apply Floor_not_nan, is_nan_false.
  rewrite mul_spec, div_spec, add_spec.
  change (Prim2SF 180) with (S754_finite false m180 (-45)).
  change (Prim2SF 360) with (S754_finite false m180 (-44)).
  destruct (Prim2SF (GoMath.Exp2i z)) as [s|s| |s m e]; try discriminate.
  apply SFmul_not_nan, SFdiv_not_nan, SFadd_not_nan, is_nan_false, H.
Qed.

Section Grid.
Variables Log Tan Cos : float -> float.

(** X14.  Up to zoom 53 the clamp of toX and toY keeps the tile
    coordinates in the grid: the column of every longitude that is not a
    NaN, infinite ones included, is between 0 and 2^z - 1; the row is
    between 0 and 2^z - 1 too, or the smallest int, which is what int(f)
    makes of a projection that is a NaN. *)
Theorem toX_toY_in_grid (lon lat : float) (z : Z) :
  0 <= z <= 53 ->
  (is_nan lon = false -> 0 <= toX lon z <= 2 ^ z - 1)
  /\ (toY Log Tan Cos lat z = Int64.min_int
      \/ 0 <= toY Log Tan Cos lat z <= 2 ^ z - 1).
Proof.
  intros Hz. split.
  - intros H. unfold toX.
    pose proof (clamp_in_grid
                  (GoMath.Floor ((lon + 180) / 360 * GoMath.Exp2i z)%float) z Hz) as C.
    cbv zeta in C. rewrite (projection_x_not_nan lon z Hz H) in C. exact C.
  - unfold toY.
    match goal with
    | |- context [GoMath.Min ?x _] =>
        pose proof (clamp_in_grid x z Hz) as C; cbv zeta in C;
        destruct (is_nan x); [left|right]; exact C
    end.
Qed.

End Grid.

Lemma toX_toY_in_grid_witness :
  0 <= 5 <= 53
  /\ 0 <= toX infinity 5 <= 2 ^ 5 - 1
  /\ (toY id_fn id_fn id_fn 45 5 = Int64.min_int
      \/ 0 <= toY id_fn id_fn id_fn 45 5 <= 2 ^ 5 - 1).
Proof.
  assert (H : 0 <= 5 <= 53) by lia.
  split; [exact H|].
  destruct (toX_toY_in_grid id_fn id_fn id_fn infinity 45 5 H) as [A B].
  split; [apply A; reflexivity|exact B].
Defined.

(** ** normalize is exact *)

(** A canonical number is determined by its value. *)
Lemma canonical_unique (m1 m2 : positive) (e1 e2 : Z) :
  canonical_mantissa prec emax m1 e1 = true ->
  canonical_mantissa prec emax m2 e2 = true ->
  fval m1 e1 = fval m2 e2 -> m1 = m2 /\ e1 = e2.
Proof.
  intros H1 H2 V.
  destruct (Z.lt_trichotomy e1 e2) as [L|[E|L]].
  - pose proof (fval_exponent_lt m1 m2 e1 e2 H1 H2 L). lia.
  - subst e2. split; [|reflexivity]. unfold fval in V.
    apply canonical_digits in H1.
    apply Z.mul_cancel_r in V; [congruence|].
    pose proof (Z.pow_pos_nonneg 2 (e1 + 1074) ltac:(lia) ltac:(lia)). lia.
  - pose proof (fval_exponent_lt m2 m1 e2 e1 H2 H1 L). lia.
Qed.

(** The remainder by 360 of a finite number, with its value. *)
Lemma Mod_360_value (x : float) (s : bool) (m : positive) (e : Z) :
  Prim2SF x = S754_finite s m e ->
  (Prim2SF (GoMath.Mod x 360) = S754_zero s /\ fval m e mod (2 * K) = 0)
  \/ exists m' e',
       Prim2SF (GoMath.Mod x 360) = S754_finite s m' e'
       /\ canonical_mantissa prec emax m' e' = true
       /\ -1074 <= e' <= 971
       /\ fval m' e' = fval m e mod (2 * K).
Proof.
  intros E. destruct (Prim2SF_canonical x s m e E) as [Hc He].
  unfold GoMath.Mod. rewrite E.
  change (Prim2SF 360) with (S754_finite false m180 (-44)).
  cbv beta iota zeta.
  set (e0 := Z.min e (-44)).
  set (X := Z.pos m * 2 ^ (e - e0)). set (Y := Z.pos m180 * 2 ^ (-44 - e0)).
  assert (HY : 0 < Y)
    by (unfold Y; pose proof (Z.pow_pos_nonneg 2 (-44 - e0) ltac:(lia) ltac:(lia)); lia).
  assert (HP : 0 < 2 ^ (e0 + 1074)) by (apply Z.pow_pos_nonneg; lia).
  assert (VX : fval m e = X * 2 ^ (e0 + 1074)).
  { unfold fval, X. rewrite <- Z.mul_assoc, <- Z.pow_add_r by lia.
    do 2 f_equal. lia. }
  assert (VY : 2 * K = Y * 2 ^ (e0 + 1074)).
  { rewrite <- fval_360. unfold fval, Y.
    rewrite <- Z.mul_assoc, <- Z.pow_add_r by lia. do 2 f_equal. lia. }
  assert (VR : fval m e mod (2 * K) = (X mod Y) * 2 ^ (e0 + 1074)).
  { rewrite VX, VY. apply Z.mul_mod_distr_r; lia. }
  pose proof (Z.mod_pos_bound X Y HY) as HR.
  destruct (X mod Y) as [|p|p] eqn:ER; [| |lia].
  - left. split; [|rewrite VR; reflexivity].
    cbn [binary_normalize SF2Prim]. destruct s; reflexivity.
  - right. cbn [binary_normalize].
    assert (Hp : Z.pos p < 2 ^ 53).
    { destruct (Z.le_gt_cases e (-44)).
      - assert (X = Z.pos m) by (unfold X; replace (e - e0) with 0 by lia; lia).
        pose proof (Z.mod_le X Y ltac:(lia) HY).
        pose proof (digits2_bounds m) as [_ Hu].
        apply canonical_digits in Hc.
        assert (2 ^ Z.pos (digits2_pos m) <= 2 ^ 53) by (apply Z.pow_le_mono_r; lia).
        lia.
      - assert (Y = Z.pos m180) by (unfold Y; replace (-44 - e0) with 0 by lia; lia).
        assert (Z.pos m180 < 2 ^ 53) by reflexivity. lia. }
    destruct (binary_round_exact false p e0 (digits2_le p 53 Hp) ltac:(lia))
      as (m' & e' & Hr & Hv & Hc' & He').
    rewrite Hr. exists m', e'.
    assert (Hprim : Prim2SF (SF2Prim (S754_finite false m' e')) = S754_finite false m' e')
      by (apply Prim2SF_finite; [assumption|lia]).
    split; [|split; [assumption|split; [lia|]]].
    + destruct s; [|exact Hprim].
      rewrite opp_spec, Hprim. reflexivity.
    + rewrite Hv, VR. reflexivity.
Qed.

(** X15.  normalize makes no rounding error on the longitude: for every
    finite longitude the returned longitude is a binary64 above -180 and at
    most 180 whose value differs from the value of the argument by an
    exact multiple of 360.  (Values are counted in units of 2^-1074, in
    which 360 is 2 * K.) *)
Theorem normalize_lon_exact (lon lat : float) :
  is_finite lon = true ->
  (-180 <? fst (normalize lon lat))%float = true
  /\ (fst (normalize lon lat) <=? 180)%float = true
  /\ exists k : Z, sval (fst (normalize lon lat)) = sval lon + k * (2 * K).
Proof.
  intros Hfin.
  destruct (normalize_lon_range lon lat Hfin) as [R1 R2].
  split; [exact R1|]. split; [exact R2|]. clear R1 R2.
  change (fst (normalize lon lat))
    with (if (GoMath.Mod lon 360 <=? -180)%float then (GoMath.Mod lon 360 + 360)%float
          else if (180 <? GoMath.Mod lon 360)%float then (GoMath.Mod lon 360 - 360)%float
          else GoMath.Mod lon 360).
  assert (H180 : Prim2SF 180 = S754_finite false m180 (-45)) by reflexivity.
  assert (Hn180 : Prim2SF (-180) = S754_finite true m180 (-45)) by reflexivity.
  assert (H360 : Prim2SF 360 = S754_finite false m180 (-44)) by reflexivity.
  pose proof (canonical_m180 (-45) ltac:(lia)) as Hc180.
  pose proof (canonical_m180 (-44) ltac:(lia)) as Hc360.
  assert (HK : 0 < 2 * K) by reflexivity.
  assert (Hzero : forall r s, Prim2SF r = S754_zero s ->
            sval (if (r <=? -180)%float then (r + 360)%float
                  else if (180 <? r)%float then (r - 360)%float else r) = 0).
  { intros r s Hr.
    rewrite (FloatAxioms.leb_spec r), (FloatAxioms.ltb_spec 180 r), Hr, H180, Hn180.
    cbn [SFleb SFltb SFcompare]. unfold sval. now rewrite Hr. }
  destruct (finite_cases lon Hfin) as [(s & E)|(s & m & e & E)].
  { exists 0. rewrite (Mod_360_zero lon s E), (Hzero lon s E).
    unfold sval. now rewrite E. }
  assert (Vlon : sval lon = if s then - fval m e else fval m e)
    by (unfold sval; now rewrite E).
  pose proof (Z.div_mod (fval m e) (2 * K) ltac:(lia)) as DM.
  destruct (Mod_360_value lon s m e E) as [[Hr Hv]|(m' & e' & Hr & Hc & He & Hv)].
  { rewrite (Hzero _ s Hr), Vlon.
    destruct s; [exists (fval m e / (2 * K))|exists (- (fval m e / (2 * K)))]; lia. }
  clear Hzero.
  generalize dependent (GoMath.Mod lon 360). intros r Hr.
  pose proof (fval_pos m' e' ltac:(lia)) as Hpos.
  pose proof (Z.mod_pos_bound (fval m e) (2 * K) HK) as HB.
  rewrite (FloatAxioms.leb_spec r), (FloatAxioms.ltb_spec 180 r), Hr, H180, Hn180.
  rewrite Vlon.
  destruct s.
  - (* a negative remainder *)
    rewrite SFleb_neg by assumption. fold K.
    destruct (Z.leb_spec K (fval m' e')) as [Hge|Hlt].
    + pose proof (exponent_of_large m' e' Hc Hge) as He45.
      destruct (normalize_diff false m' m180 e' (-44) ltac:(lia) ltac:(lia)) as
        (m2 & e2 & Hn & Hv2 & Hc2 & He2).
      * rewrite fval_360. lia.
      * rewrite fval_360.
        pose proof (K_small (Z.min e' (-44)) ltac:(lia)). lia.
      * exists (fval m e / (2 * K) + 1).
        unfold sval. rewrite add_spec, Hr, H360.
        unfold SF64add. cbn [SFadd cond_Zopp]. cbv zeta. rewrite Hn.
        rewrite Hv2, fval_360. lia.
    + cbn [SFltb SFcompare].
      exists (fval m e / (2 * K)). unfold sval. rewrite Hr. lia.
  - (* a positive remainder *)
    cbn [SFleb SFcompare].
    rewrite SFltb_pos by assumption. fold K.
    destruct (Z.ltb_spec K (fval m' e')) as [Hgt|Hle].
    + pose proof (exponent_of_large m' e' Hc ltac:(lia)) as He45.
      destruct (normalize_diff true m' m180 e' (-44) ltac:(lia) ltac:(lia)) as
        (m2 & e2 & Hn & Hv2 & Hc2 & He2).
      * rewrite fval_360. lia.
      * rewrite fval_360.
        pose proof (K_small (Z.min e' (-44)) ltac:(lia)). lia.
      * exists (- (fval m e / (2 * K)) - 1).
        unfold sval. rewrite sub_spec, Hr, H360.
        unfold SF64sub. cbn [SFsub cond_Zopp]. cbv zeta. rewrite Hn.
        rewrite Hv2, fval_360. lia.
    + exists (- (fval m e / (2 * K))). unfold sval. rewrite Hr. lia.
Qed.

Lemma normalize_lon_exact_witness :
  is_finite 540 = true
  /\ exists k : Z, sval (fst (normalize 540 35)) = sval 540 + k * (2 * K).
Proof.
  split; [reflexivity|].
  exact (proj2 (proj2 (normalize_lon_exact 540 35 eq_refl))).
Defined.

(** The remainder by 360 of a number between -180 and 180 is the number
    itself. *)
Lemma Mod_360_small (r : float) :
  (-180 <? r)%float = true -> (r <=? 180)%float = true -> GoMath.Mod r 360 = r.
Proof.
  intros H1 H2.
  rewrite FloatAxioms.ltb_spec in H1. rewrite FloatAxioms.leb_spec in H2.
  change (Prim2SF (-180)) with (S754_finite true m180 (-45)) in H1.
  change (Prim2SF 180) with (S754_finite false m180 (-45)) in H2.
  pose proof (canonical_m180 (-45) ltac:(lia)) as Hc180.
  destruct (Prim2SF r) as [s|s| |s m e] eqn:E.
  - now apply (Mod_360_zero r s).
  - destruct s; discriminate.
  - discriminate.
  - destruct (Prim2SF_canonical r s m e E) as [Hc He].
    assert (V : fval m e <= K).
    { destruct s.
      - rewrite SFltb_neg in H1 by assumption. apply Z.ltb_lt in H1.
        fold K in H1. lia.
      - rewrite SFleb_pos in H2 by assumption. apply Z.leb_le in H2. exact H2. }
    assert (He45 : e <= -45).
    { destruct (Z.le_gt_cases e (-45)) as [|G]; [assumption|].
      pose proof (fval_exponent_lt m180 m (-45) e Hc180 Hc ltac:(lia)) as L.
      fold K in L. lia. }
    apply Prim2SF_inj. unfold GoMath.Mod. rewrite E.
    change (Prim2SF 360) with (S754_finite false m180 (-44)).
    cbv beta iota zeta.
    replace (Z.min e (-44)) with e by lia.
    rewrite Z.sub_diag, Z.mul_1_r.
    pose proof (Z.pow_pos_nonneg 2 (-44 - e) ltac:(lia) ltac:(lia)) as P.
    assert (S : Z.pos m < Z.pos m180 * 2 ^ (-44 - e)).
    { assert (K0 : 0 < K) by reflexivity.
      assert (F : fval m e < fval m180 (-44)) by (rewrite fval_360; lia).
      unfold fval in F.
      replace (-44 + 1074) with ((-44 - e) + (e + 1074)) in F by lia.
      rewrite (Z.pow_add_r 2 (-44 - e) (e + 1074)), Z.mul_assoc in F by lia.
      apply Z.mul_lt_mono_pos_r in F; [exact F|apply Z.pow_pos_nonneg; lia]. }
    rewrite Z.mod_small by lia. cbn [binary_normalize].
    pose proof (canonical_digits m e Hc) as (D & _ & _).
    destruct (binary_round_exact false m e D ltac:(lia))
      as (m' & e' & Hr & Hv & Hc' & He').
    destruct (canonical_unique m' m e' e Hc' Hc Hv) as [-> ->].
    rewrite Hr.
    destruct s; [rewrite opp_spec|]; rewrite Prim2SF_finite by (assumption || lia);
      reflexivity.
Qed.

(** X16.  normalize is idempotent: normalizing what it returned changes
    nothing, for every finite longitude and every latitude. *)
Theorem normalize_idempotent (lon lat : float) :
  is_finite lon = true ->
  normalize (fst (normalize lon lat)) (snd (normalize lon lat)) = normalize lon lat.
Proof.
  intros Hfin.
  destruct (normalize_lon_range lon lat Hfin) as [R1 R2].
  assert (L : snd (normalize lon lat) = MERCATOR_MAX_LAT
              \/ snd (normalize lon lat) = (- MERCATOR_MAX_LAT)%float
              \/ ((MERCATOR_MAX_LAT <? snd (normalize lon lat))%float = false
                  /\ (snd (normalize lon lat) <? - MERCATOR_MAX_LAT)%float = false)).
  { unfold normalize. cbn [snd].
    destruct (MERCATOR_MAX_LAT <? lat)%float eqn:E1; [auto|].
    destruct (lat <? - MERCATOR_MAX_LAT)%float eqn:E2; auto. }
  destruct (normalize lon lat) as [lon' lat']. cbn [fst snd] in *.
  unfold normalize. rewrite (Mod_360_small lon' R1 R2).
  rewrite (float_leb_not_ltb _ _ R2).
  replace (lon' <=? -180)%float with false.
  2:{ symmetry. destruct (lon' <=? -180)%float eqn:E; [|reflexivity].
      apply float_leb_not_ltb in E. congruence. }
  f_equal.
  destruct L as [->|[->|[-> ->]]]; reflexivity.
Qed.

Lemma normalize_idempotent_witness :
  is_finite 540 = true
  /\ normalize (fst (normalize 540 90)) (snd (normalize 540 90)) = normalize 540 90.
Proof.
  split; [reflexivity|]. exact (normalize_idempotent 540 90 eq_refl).
Defined.

(** ** The antimeridian *)

Lemma toX_180 (z : Z) :
  1 <= z <= 62 -> toX 180 z = if z <=? 53 then 2 ^ z - 1 else 2 ^ z.
Proof.
  intros H.
  assert (A : forallb toX_180_ok (int_range 1 62) = true) by (vm_compute; reflexivity).
  rewrite forallb_forall in A. apply Z.eqb_eq, A, in_int_range, H.
Qed.

Section Antimeridian.
Variables Log Tan Cos : float -> float.

(** X17.  The longitude 180 at the two sides of zoom 53: up to zoom 53
    FromLonLat puts it in the last column, 2^z - 1; from zoom 54 to 62
    the binary64 2^z - 1 that the clamp of toX needs does not exist, toX
    returns 2^z, and the key, which holds z bits of it, lies in column 0,
    at the other side of the map. *)
Theorem FromLonLat_180_column (lat : float) (z : Z) :
  1 <= z <= 62 ->
  exists k, FromLonLat Log Tan Cos 180 lat z = Some k
            /\ fst (fst (XYZ k)) = if z <=? 53 then 2 ^ z - 1 else 0.
Proof.
  intros Hz. unfold FromLonLat.
  pose proof (normalize_180 lat) as N.
  destruct (normalize 180 lat) as [lon' lat']. cbn [fst] in N. subst lon'.
  unfold FromXYZ. destruct (Z.ltb_spec z 0); [lia|].
  eexists. split; [reflexivity|].
  rewrite XYZ_FromXYZ_loop;
    [|lia|apply to_int_in_range|apply to_int_in_range].
  cbn [fst]. rewrite Z2Nat.id by lia. rewrite (toX_180 z Hz).
  assert (P : 2 <= 2 ^ z) by (apply (Z.pow_le_mono_r 2 1 z); lia).
  destruct (z <=? 53).
  - apply Z.mod_small. lia.
  - apply Z.mod_same. lia.
Qed.

End Antimeridian.

Lemma FromLonLat_180_column_witness :
  1 <= 54 <= 62
  /\ exists k, FromLonLat id_fn id_fn id_fn 180 0 54 = Some k
               /\ fst (fst (XYZ k)) = 0.
Proof.
  assert (H : 1 <= 54 <= 62) by lia.
  split; [exact H|].
  exact (FromLonLat_180_column id_fn id_fn id_fn 0 54 H).
Defined.
